(** * Sitemap generator (src/index.ts): a shallow embedding and its properties

    The TypeScript source has two classes.  [Sitemap] keeps a base URL, a
    list of locale codes and an array of route objects; [SiteMapGenerator]
    renders an array of route objects as XML text.  Route objects are
    mutable JavaScript objects that are handed from one instance to another
    (the generator receives the collection's own route objects, and
    [generateMultiLanguage] hands the parent's route objects to the [add]
    of each child), so the embedding keeps every object in one store and
    every method is a state transformer over that store.

    What the embedding takes from the host language:
    - strings are sequences of bytes; the program only concatenates them
      and strips the ASCII character ["/"];
    - a number is a double, with the truthiness and the decimal text that
      the host gives it; a [Date] is a date with a time value;
    - the methods are declared [async] but never suspend, and are run here
      as sequential computations;
    - [ltrim], [clone] (package [@mongez/reinforcements]) and [putFile]
      (package [@mongez/fs]) are imported, and modelled by what they are
      documented to do. *)

From stdpp Require Import base option list strings pretty.
From Stdlib Require Import ZArith Ascii.

Local Open Scope Z_scope.

(** ** Host-language values *)

Module JS.

(** Characters that a string literal cannot hold directly. *)
Definition nl : string := String (ascii_of_nat 10) EmptyString.
Definition dq : string := String (ascii_of_nat 34) EmptyString.

(** The Number values are the IEEE 754 doubles.  A finite value other than
    zero is [m * 2^e], negated when [negative], where [m] has 53 bits and
    [-1074 <= e <= 971], or has fewer bits and [e = -1074]. *)
Inductive double : Type :=
| Nan
| Zero (negative : bool)
| Inf (negative : bool)
| Finite (negative : bool) (m e : Z).

Definition double_eqb (x y : double) : bool :=
  match x, y with
  | Nan, Nan => true
  | Zero a, Zero b | Inf a, Inf b => Bool.eqb a b
  | Finite a m e, Finite b m' e' => Bool.eqb a b && (m =? m') && (e =? e')
  | _, _ => false
  end.

(** [n / d] as the ratio of two integers to [2^e]. *)
Definition scale (n d e : Z) : Z * Z :=
  (n * 2 ^ Z.max (- e) 0, d * 2 ^ Z.max e 0).

(** The Number value for the ratio [n / d] of two positive integers: the
    double nearest to it, and of two that are equally near the one with an
    even [m]; zero when zero is the nearest, infinite from
    [2^1024 - 2^970] on. *)
Definition nearest (negative : bool) (n d : Z) : double :=
  let e0 := Z.log2 n - Z.log2 d - 52 in
  let e1 := if fst (scale n d e0) <? 2 ^ 52 * snd (scale n d e0) then e0 - 1 else e0 in
  let e2 := Z.max e1 (-1074) in
  let (num, den) := scale n d e2 in
  let q := num / den in
  let r := num mod den in
  let q' := if (den <? 2 * r) || ((den =? 2 * r) && Z.odd q) then q + 1 else q in
  let (m, e) := if q' =? 2 ^ 53 then (2 ^ 52, e2 + 1) else (q', e2) in
  if m =? 0 then Zero negative
  else if 971 <? e then Inf negative
  else Finite negative m e.

(** The Number value for [m * 10^e]. *)
Definition of_decimal (m e : Z) : double :=
  if m =? 0 then Zero false
  else nearest (m <? 0) (Z.abs m * 10 ^ Z.max e 0) (10 ^ Z.max (- e) 0).

(** The multiple of [10^t] that is next below [m * 2^e], as a number of
    such multiples, and whether it is nearer to [m * 2^e] than the next
    multiple above (0), as near (1) or farther (2). *)
Definition below (m e t : Z) : Z * Z :=
  let num := m * 2 ^ Z.max e 0 * 10 ^ Z.max (- t) 0 in
  let den := 2 ^ Z.max (- e) 0 * 10 ^ Z.max t 0 in
  let r := num mod den in
  (num / den, if 2 * r <? den then 0 else if 2 * r =? den then 1 else 2).

(** The digits that [Number::toString] prints for [m * 2^e]: an integer [s]
    and an exponent [t] such that the Number value for [s * 10^t] is
    [m * 2^e], with the largest such [t] (then [s] has as few digits as can
    be) and the [s] for which [s * 10^t] is nearest.  The search goes down
    from a [t] with [10^t] above the value and ends at the latest where
    [m * 2^e] is itself a multiple of [10^t]. *)
Fixpoint digits_from (fuel : nat) (m e t : Z) : Z * Z :=
  let (lo, side) := below m e t in
  let hi := lo + 1 in
  let here s := double_eqb (of_decimal s t) (Finite false m e) in
  match here lo, here hi with
  | true, true => (if (side =? 0) || ((side =? 1) && Z.even lo) then lo else hi, t)
  | true, false => (lo, t)
  | false, true => (hi, t)
  | false, false =>
      match fuel with
      | O => (lo, t)
      | S fuel' => digits_from fuel' m e (t - 1)
      end
  end.

Definition shortest_digits (m e : Z) : Z * Z :=
  let t := (e + Z.log2 m + 1) * 30103 / 100000 + 2 in
  digits_from (Z.to_nat (t - Z.min e 0)) m e t.

Definition zeros (n : Z) : string :=
  String.concat EmptyString (replicate (Z.to_nat n) "0").

Definition digits_between (from to : Z) (digits : string) : string :=
  String.substring (Z.to_nat from) (Z.to_nat (to - from)) digits.

(** [Number::toString] in radix 10: with [k] digits and the decimal point
    behind the [n]-th of them, plain notation for [-5 <= n <= 21] and the
    exponent [n - 1] otherwise. *)
Definition toString (x : double) : string :=
  match x with
  | Nan => "NaN"
  | Zero _ => "0"
  | Inf negative => if negative then "-Infinity" else "Infinity"
  | Finite negative m e =>
      let (s, t) := shortest_digits m e in
      let digits := pretty s in
      let k := Z.of_nat (String.length digits) in
      let n := k + t in
      (if negative then "-" else EmptyString) +:+
      (if (-5 <=? n) && (n <=? 21) then
         if k <=? n then digits +:+ zeros (n - k)
         else if 0 <? n
         then digits_between 0 n digits +:+ "." +:+ digits_between n k digits
         else "0." +:+ zeros (- n) +:+ digits
       else
         let exponent := (if n - 1 <? 0 then "-" else "+") +:+ pretty (Z.abs (n - 1)) in
         if k =? 1 then digits +:+ "e" +:+ exponent
         else digits_between 0 1 digits +:+ "." +:+ digits_between 1 k digits +:+
              "e" +:+ exponent)
  end.

(** JavaScript numbers, written as the program text writes them: [Int z]
    is the number that the integer literal [z] evaluates to, [Decimal m e]
    the one that a decimal literal for [m * 10^e] evaluates to ([0.8] is
    [Decimal 8 (-1)]).  Every double is the value of such a literal. *)
Inductive number : Type :=
| NaN
| NegZero
| Int (z : Z)
| Infinity (negative : bool)
| Decimal (m e : Z).

Definition value (n : number) : double :=
  match n with
  | NaN => Nan
  | NegZero => Zero true
  | Int z => of_decimal z 0
  | Infinity negative => Inf negative
  | Decimal m e => of_decimal m e
  end.

(** A number is falsy when it is [+0], [-0] or [NaN]. *)
Definition number_truthy (n : number) : bool :=
  match value n with
  | Nan | Zero _ => false
  | _ => true
  end.

(** The text that a template literal prints for a number. *)
Definition Number_toString (n : number) : string := toString (value n).

(** Truthiness of an optional field: absent ([undefined]) is falsy. *)
Definition truthy_number (o : option number) : bool :=
  match o with Some n => number_truthy n | None => false end.

Definition string_truthy (s : string) : bool :=
  match s with EmptyString => false | _ => true end.

Definition truthy_string (o : option string) : bool :=
  match o with Some s => string_truthy s | None => false end.

(** A [Date] object that holds a time value, in milliseconds since the
    epoch.  (An Invalid Date, whose [toISOString] raises, is not a value of
    this type.) *)
Record Date : Type := mkDate { time_value : Z }.

Definition pad (width : nat) (n : Z) : string :=
  let digits := pretty (Z.abs n) in
  String.concat EmptyString (replicate (width - String.length digits) "0") +:+ digits.

(** [Date.prototype.toISOString]: the proleptic Gregorian date of the time
    value in UTC, as [YYYY-MM-DDTHH:mm:ss.sssZ], with a signed six-digit
    year outside 0..9999. *)
Definition toISOString (d : Date) : string :=
  let t := time_value d in
  let day := t / 86400000 in
  let ms := t mod 86400000 in
  let z := day + 719468 in
  let era := z / 146097 in
  let doe := z - era * 146097 in
  let yoe := (doe - doe / 1460 + doe / 36524 - doe / 146096) / 365 in
  let doy := doe - (365 * yoe + yoe / 4 - yoe / 100) in
  let mp := (5 * doy + 2) / 153 in
  let dd := doy - (153 * mp + 2) / 5 + 1 in
  let mm := if mp <? 10 then mp + 3 else mp - 9 in
  let yy := yoe + era * 400 + (if mm <=? 2 then 1 else 0) in
  let year :=
    if (0 <=? yy) && (yy <=? 9999) then pad 4 yy
    else (if yy <? 0 then "-" else "+") +:+ pad 6 yy in
  year +:+ "-" +:+ pad 2 mm +:+ "-" +:+ pad 2 dd +:+ "T" +:+
  pad 2 (ms / 3600000) +:+ ":" +:+ pad 2 (ms / 60000 mod 60) +:+ ":" +:+
  pad 2 (ms / 1000 mod 60) +:+ "." +:+ pad 3 (ms mod 1000) +:+ "Z".

(** An object used as a string-to-string dictionary: its own properties in
    the order in which they were created. *)
Definition Dict : Type := list (string * string).

Fixpoint dict_update (k v : string) (o : Dict) : Dict :=
  match o with
  | [] => [(k, v)]
  | (k', v') :: rest =>
      if String.eqb k' k then (k', v) :: rest
      else (k', v') :: dict_update k v rest
  end.

(** [o[k] = v] on an object made by [{}]: an existing property keeps its
    place and takes the new value, a new property goes last.  The key
    [__proto__] reaches the inherited setter instead, which ignores a
    string value. *)
Definition dict_set (k v : string) (o : Dict) : Dict :=
  if String.eqb k "__proto__" then o else dict_update k v o.

Definition is_digit (c : ascii) : bool :=
  let n := nat_of_ascii c in (48 <=? n)%nat && (n <=? 57)%nat.

Fixpoint digits_value (s : string) (acc : N) : option N :=
  match s with
  | EmptyString => Some acc
  | String c rest =>
      if is_digit c
      then digits_value rest (10 * acc + N.of_nat (nat_of_ascii c - 48))%N
      else None
  end.

(** A property key is an array index when it is the canonical decimal text
    of an integer in 0 .. 2^32 - 2. *)
Definition array_index (k : string) : option N :=
  match k with
  | EmptyString => None
  | String c rest =>
      if Ascii.eqb c "0"
      then (match rest with EmptyString => Some 0%N | _ => None end)
      else
        match digits_value k 0 with
        | Some n => if (n <=? 4294967294)%N then Some n else None
        | None => None
        end
  end.

Fixpoint insert_index (e : N * (string * string)) (l : list (N * (string * string)))
  : list (N * (string * string)) :=
  match l with
  | [] => [e]
  | e' :: rest =>
      if (fst e <=? fst e')%N then e :: l else e' :: insert_index e rest
  end.

Definition index_entries (o : Dict) : list (N * (string * string)) :=
  omap (fun kv => match array_index (fst kv) with
                  | Some n => Some (n, kv)
                  | None => None
                  end) o.

Definition named_entries (o : Dict) : Dict :=
  List.filter (fun kv => match array_index (fst kv) with
                         | Some _ => false
                         | None => true
                         end) o.

(** [Object.entries]: array-index keys first, in ascending numeric order,
    then the other keys in creation order. *)
Definition Object_entries (o : Dict) : list (string * string) :=
  map snd (foldr insert_index [] (index_entries o)) ++ named_entries o.

(** [Array.prototype.slice(0, end)] for an integer [end]: a negative [end]
    counts from the back. *)
Definition slice0 {A : Type} (l : list A) (e : Z) : list A :=
  let len := Z.of_nat (length l) in
  let final := if e <? 0 then Z.max (len + e) 0 else Z.min e len in
  take (Z.to_nat final) l.

End JS.

(** ** Functions of the imported packages *)

Fixpoint strip_prefix (p s : string) : option string :=
  match p, s with
  | EmptyString, _ => Some s
  | String a p', String b s' => if Ascii.eqb a b then strip_prefix p' s' else None
  | String _ _, EmptyString => None
  end.

Fixpoint ltrim_loop (fuel : nat) (s needle : string) : string :=
  match fuel with
  | O => s
  | S fuel' =>
      match strip_prefix needle s with
      | Some rest => ltrim_loop fuel' rest needle
      | None => s
      end
  end.

(** Modelled from the spec: [ltrim] of the package [@mongez/reinforcements],
    whose source is not part of the repository.  It removes every leading
    occurrence of a (non-empty) needle; the program calls it with ["/"]
    ("leading slashes stripped from the relative portion"). *)
Definition ltrim (s needle : string) : string :=
  match needle with
  | EmptyString => s
  | _ => ltrim_loop (String.length s) s needle
  end.

(** ** Objects and the store *)

(** References are positions in the store. *)
Abbreviation addr := nat (only parsing).

Inductive DateOrString : Type :=
| ADate (d : JS.Date)
| AString (s : string).

(** [type SitemapPath]: optional fields are [None] when absent. *)
Record SitemapPath : Type := mkSitemapPath {
  path : string;
  lastModified : option DateOrString;
  changeFrequency : option string;
  priority : option JS.number;
  hreflang : option JS.Dict
}.

(** The fields of a [Sitemap] instance; [paths] holds references. *)
Record SitemapFields : Type := mkSitemap {
  paths : list addr;
  _split : bool;
  _maxURLsPerSitemap : JS.number;
  _splitByLanguages : bool;
  baseUrl : string;
  localeCodes : list string
}.

Inductive object : Type :=
| Route (r : SitemapPath)
| Collection (s : SitemapFields)
| Serializer (urls : list addr).

(** The store of objects, addressed by position, and the files handed to
    [putFile] so far (destination and content, oldest first). *)
Record World : Type := mkWorld {
  heap : list object;
  files : list (string * string)
}.

(** Computations: a state transformer that can fail (a field read through a
    reference to no object, or to an object of another class). *)
Definition M (A : Type) : Type := World -> option (A * World).

#[global] Instance M_ret : MRet M := fun A a w => Some (a, w).
#[global] Instance M_bind : MBind M := fun A B f m w =>
  match m w with
  | Some (a, w') => f a w'
  | None => None
  end.

Definition fail {A : Type} : M A := fun _ => None.

Definition alloc (o : object) : M addr := fun w =>
  Some (length (heap w), mkWorld (heap w ++ [o]) (files w)).

Definition load (a : addr) : M object := fun w =>
  match heap w !! a with
  | Some o => Some (o, w)
  | None => None
  end.

Definition store (a : addr) (o : object) : M unit := fun w =>
  match heap w !! a with
  | Some _ => Some (tt, mkWorld (<[a := o]> (heap w)) (files w))
  | None => None
  end.

Definition route (a : addr) : M SitemapPath :=
  o ← load a; match o with Route r => mret r | _ => fail end.

Definition collection (a : addr) : M SitemapFields :=
  o ← load a; match o with Collection s => mret s | _ => fail end.

Definition serializer (a : addr) : M (list addr) :=
  o ← load a; match o with Serializer urls => mret urls | _ => fail end.

(** [for (const x of l) body], with the local variables that the body
    updates threaded through as [acc]. *)
Fixpoint for_of {A S : Type} (l : list A) (body : A -> S -> M S) (acc : S) : M S :=
  match l with
  | [] => mret acc
  | x :: l' => acc' ← body x acc; for_of l' body acc'
  end.

(** Modelled from the spec: [putFile] of the package [@mongez/fs], whose
    source is not part of the repository ("accepts a destination path and a
    string payload"): one more file written. *)
Definition putFile (destination content : string) : M unit := fun w =>
  Some (tt, mkWorld (heap w) (files w ++ [(destination, content)])).

(** Modelled from the spec: [clone] of the package [@mongez/reinforcements],
    whose source is not part of the repository ("a defensive copy ... deep
    enough that mutating the copy never affects the original"): a new
    object with the same field values. *)
Definition clone (a : addr) : M addr :=
  r ← route a; alloc (Route r).

(** [clone] of an array of route objects: a new array of copies. *)
Fixpoint clone_array (l : list addr) : M (list addr) :=
  match l with
  | [] => mret []
  | a :: l' => a' ← clone a; l'' ← clone_array l'; mret (a' :: l'')
  end.

(** Assignments to one field of a route object. *)
Definition set_path (a : addr) (v : string) : M unit :=
  r ← route a;
  store a (Route (mkSitemapPath v (lastModified r) (changeFrequency r) (priority r) (hreflang r))).

Definition set_priority (a : addr) (v : JS.number) : M unit :=
  r ← route a;
  store a (Route (mkSitemapPath (path r) (lastModified r) (changeFrequency r) (Some v) (hreflang r))).

Definition set_hreflang (a : addr) (v : JS.Dict) : M unit :=
  r ← route a;
  store a (Route (mkSitemapPath (path r) (lastModified r) (changeFrequency r) (priority r) (Some v))).

(** [route.hreflang[k] = v] *)
Definition set_hreflang_entry (a : addr) (k v : string) : M unit :=
  r ← route a;
  match hreflang r with
  | Some h => set_hreflang a (JS.dict_set k v h)
  | None => fail
  end.

(** ** class SiteMapGenerator *)

Module SiteMapGenerator.

Definition new : M addr := alloc (Serializer []).

Definition add (this : addr) (urls : list addr) : M addr :=
  for_of urls (fun url (_ : unit) =>
    l ← serializer this;
    store this (Serializer (l ++ [url]))) tt;;
  mret this.

Definition xmlHeader : string :=
  "<?xml version=" +:+ JS.dq +:+ "1.0" +:+ JS.dq +:+
  " encoding=" +:+ JS.dq +:+ "UTF-8" +:+ JS.dq +:+ "?>".
Definition xmlNamespace : string := "http://www.sitemaps.org/schemas/sitemap/0.9".
Definition xhtmlNamespace : string := "http://www.w3.org/1999/xhtml".

(** The body of the loop of [generate]: what one route appends to [xml]. *)
Definition url_entry (xml : string) (r : SitemapPath) : string :=
  let xml := xml +:+ "  <url>" +:+ JS.nl in
  let xml := xml +:+ "    <loc>" +:+ path r +:+ "</loc>" +:+ JS.nl in
  let xml :=
    match lastModified r with
    | Some (AString s) =>
        if JS.string_truthy s
        then xml +:+ "    <lastmod>" +:+ s +:+ "</lastmod>" +:+ JS.nl
        else xml
    | Some (ADate d) =>
        xml +:+ "    <lastmod>" +:+ JS.toISOString d +:+ "</lastmod>" +:+ JS.nl
    | None => xml
    end in
  let xml :=
    match changeFrequency r with
    | Some c =>
        if JS.string_truthy c
        then xml +:+ "    <changefreq>" +:+ c +:+ "</changefreq>" +:+ JS.nl
        else xml
    | None => xml
    end in
  let xml :=
    match priority r with
    | Some p =>
        if JS.number_truthy p
        then xml +:+ "    <priority>" +:+ JS.Number_toString p +:+ "</priority>" +:+ JS.nl
        else xml
    | None => xml
    end in
  let xml :=
    match hreflang r with
    | Some h =>
        fold_left (fun xml kv =>
          xml +:+ "    <xhtml:link rel=" +:+ JS.dq +:+ "alternate" +:+ JS.dq +:+
          " hreflang=" +:+ JS.dq +:+ fst kv +:+ JS.dq +:+
          " href=" +:+ JS.dq +:+ snd kv +:+ JS.dq +:+ " />" +:+ JS.nl)
          (JS.Object_entries h) xml
    | None => xml
    end in
  xml +:+ "  </url>" +:+ JS.nl.

(** [limit ? ... : ...]: an absent limit and the limit 0 are falsy. *)
Definition limit_truthy (limit : option Z) : bool :=
  match limit with
  | Some 0 | None => false
  | Some _ => true
  end.

Definition generate (this : addr) (limit : option Z) : M string :=
  let xml :=
    xmlHeader +:+ JS.nl +:+ "<urlset xmlns=" +:+ JS.dq +:+ xmlNamespace +:+ JS.dq +:+
    " xmlns:xhtml=" +:+ JS.dq +:+ xhtmlNamespace +:+ JS.dq +:+ ">" +:+ JS.nl in
  urls ← serializer this;
  copies ← clone_array urls;
  let routesList :=
    match limit with
    | Some l => if limit_truthy limit then JS.slice0 copies l else copies
    | None => copies
    end in
  xml ← for_of routesList (fun a xml => r ← route a; mret (url_entry xml r)) xml;
  mret (xml +:+ "</urlset>" +:+ JS.nl).

Definition sitemap_entry (xml : string) (r : SitemapPath) : string :=
  let xml := xml +:+ "  <sitemap>" +:+ JS.nl in
  let xml := xml +:+ "    <loc>" +:+ path r +:+ "</loc>" +:+ JS.nl in
  xml +:+ "  </sitemap>" +:+ JS.nl.

Definition generateSitemapsList (this : addr) : M string :=
  let xml :=
    xmlHeader +:+ JS.nl +:+ "<sitemapindex xmlns=" +:+ JS.dq +:+ xmlNamespace +:+
    JS.dq +:+ ">" +:+ JS.nl in
  urls ← serializer this;
  routesList ← clone_array urls;
  xml ← for_of routesList (fun a xml => r ← route a; mret (sitemap_entry xml r)) xml;
  mret (xml +:+ "</sitemapindex>" +:+ JS.nl).

End SiteMapGenerator.

(** ** class Sitemap *)

(** The argument of [add]: a bare string or a reference to a record. *)
Inductive PathArg : Type :=
| Str (p : string)
| Ref (a : addr).

Module Sitemap.

Definition new (baseUrl : string) (localeCodes : list string) : M addr :=
  alloc (Collection (mkSitemap [] false (JS.Int 50000) true baseUrl localeCodes)).

Definition setLocales (this : addr) (codes : list string) : M addr :=
  s ← collection this;
  store this (Collection (mkSitemap (paths s) (_split s) (_maxURLsPerSitemap s)
                            (_splitByLanguages s) (baseUrl s) codes));;
  mret this.

Definition split (this : addr) (flag : bool) : M addr :=
  s ← collection this;
  store this (Collection (mkSitemap (paths s) flag (_maxURLsPerSitemap s)
                            (_splitByLanguages s) (baseUrl s) (localeCodes s)));;
  mret this.

Definition maxURLsPerSitemap (this : addr) (n : JS.number) : M addr :=
  s ← collection this;
  store this (Collection (mkSitemap (paths s) (_split s) n
                            (_splitByLanguages s) (baseUrl s) (localeCodes s)));;
  mret this.

Definition splitByLanguages (this : addr) (flag : bool) : M addr :=
  s ← collection this;
  store this (Collection (mkSitemap (paths s) (_split s) (_maxURLsPerSitemap s)
                            flag (baseUrl s) (localeCodes s)));;
  mret this.

Definition parsePath (this : addr) (arg : PathArg) : M addr :=
  arg ← match arg with
        | Str p => alloc (Route (mkSitemapPath p None None None None))
        | Ref a => mret a
        end;
  internalRoute ← clone arg;
  r ← route internalRoute;
  (if negb (JS.truthy_number (priority r))
   then set_priority internalRoute (JS.Int 1)
   else mret tt);;
  s ← collection this;
  match localeCodes s with
  | [] => mret tt
  | _ :: _ =>
      set_hreflang internalRoute [];;
      for_of (localeCodes s) (fun localeCode (_ : unit) =>
        s ← collection this;
        r ← route internalRoute;
        set_hreflang_entry internalRoute localeCode
          (baseUrl s +:+ "/" +:+ localeCode +:+ "/" +:+ ltrim (path r) "/")) tt
  end;;
  s ← collection this;
  r ← route internalRoute;
  set_path internalRoute (baseUrl s +:+ "/" +:+ ltrim (path r) "/");;
  mret internalRoute.

Definition add (this : addr) (arg : PathArg) : M unit :=
  r ← parsePath this arg;
  s ← collection this;
  store this (Collection (mkSitemap (paths s ++ [r]) (_split s) (_maxURLsPerSitemap s)
                            (_splitByLanguages s) (baseUrl s) (localeCodes s))).

Definition length (this : addr) : M nat :=
  s ← collection this; mret (List.length (paths s)).

(** [[Symbol.iterator]]: the iterator of the array of stored routes. *)
Definition Symbol_iterator (this : addr) : M (list addr) :=
  s ← collection this; mret (paths s).

Definition generate (this : addr) (limit : option Z) : M string :=
  s ← collection this;
  g ← SiteMapGenerator.new;
  g ← SiteMapGenerator.add g (paths s);
  SiteMapGenerator.generate g limit.

Definition generateSitemapsList (this : addr) : M string :=
  s ← collection this;
  g ← SiteMapGenerator.new;
  g ← SiteMapGenerator.add g (paths s);
  SiteMapGenerator.generateSitemapsList g.

Definition toXML (this : addr) : M string := generate this None.

Definition saveTo (this : addr) (destination : string) : M addr :=
  content ← generate this None;
  putFile destination content;;
  mret this.

Definition generateMultiLanguage (this : addr) : M string :=
  b ← collection this;
  sitemapIndex ← new (baseUrl b) [];
  s ← collection this;
  for_of (localeCodes s) (fun localeCode (_ : unit) =>
    b ← collection this;
    sitemap ← new (baseUrl b +:+ "/" +:+ localeCode) [];
    s ← collection this;
    for_of (paths s) (fun r (_ : unit) => add sitemap (Ref r)) tt;;
    toXML sitemap;;
    add sitemapIndex (Str ("/sitemap-" +:+ localeCode +:+ ".xml"))) tt;;
  generateSitemapsList sitemapIndex.

End Sitemap.

(** * Definitions used in the statements *)

(** ** Pure descriptions used in the statements *)

(** The route record that [parsePath] builds from the record [r] in a
    collection with fields [s]. *)
Definition hreflang_of (B : string) (L : list string) (p : string) : JS.Dict :=
  fold_left (fun h code =>
    JS.dict_set code (B +:+ "/" +:+ code +:+ "/" +:+ ltrim p "/") h) L [].

Definition normalized (s : SitemapFields) (r : SitemapPath) : SitemapPath :=
  mkSitemapPath
    (baseUrl s +:+ "/" +:+ ltrim (path r) "/")
    (lastModified r)
    (changeFrequency r)
    (if JS.truthy_number (priority r) then priority r else Some (JS.Int 1))
    (match localeCodes s with
     | [] => hreflang r
     | _ :: _ => Some (hreflang_of (baseUrl s) (localeCodes s) (path r))
     end).

(** The record that an argument of [add] stands for. *)
Definition arg_record (w : World) (arg : PathArg) : option SitemapPath :=
  match arg with
  | Str p => Some (mkSitemapPath p None None None None)
  | Ref a => match heap w !! a with Some (Route r) => Some r | _ => None end
  end.

(** The objects that [parsePath] allocates before the clone. *)
Definition arg_temporaries (arg : PathArg) : list object :=
  match arg with
  | Str p => [Route (mkSitemapPath p None None None None)]
  | Ref _ => []
  end.

Definition push (s : SitemapFields) (a : addr) : SitemapFields :=
  mkSitemap (paths s ++ [a]) (_split s) (_maxURLsPerSitemap s)
    (_splitByLanguages s) (baseUrl s) (localeCodes s).

(** [holds w this s rs]: in [w], [this] is a collection with fields [s]
    whose stored references lead to the route records [rs], in order. *)
Definition holds (w : World) (this : addr) (s : SitemapFields) (rs : list SitemapPath) : Prop :=
  heap w !! this = Some (Collection s) /\
  Forall2 (fun a r => heap w !! a = Some (Route r)) (paths s) rs.


(** Leading slashes, and what is left without them. *)
Fixpoint drop_slashes (s : string) : string :=
  match s with
  | String c s' => if Ascii.eqb c "/" then drop_slashes s' else s
  | EmptyString => s
  end.

Fixpoint slashes (k : nat) : string :=
  match k with
  | O => EmptyString
  | S k' => String "/" (slashes k')
  end.

Definition no_leading_slash (s : string) : Prop :=
  match s with
  | String c _ => c <> "/"%char
  | EmptyString => True
  end.


(** The fixed text around the blocks of a document. *)

Definition urlset_open : string :=
  SiteMapGenerator.xmlHeader +:+ JS.nl +:+ "<urlset xmlns=" +:+ JS.dq +:+
  SiteMapGenerator.xmlNamespace +:+ JS.dq +:+ " xmlns:xhtml=" +:+ JS.dq +:+
  SiteMapGenerator.xhtmlNamespace +:+ JS.dq +:+ ">" +:+ JS.nl.

Definition urlset_close : string := "</urlset>" +:+ JS.nl.

Definition sitemapindex_open : string :=
  SiteMapGenerator.xmlHeader +:+ JS.nl +:+ "<sitemapindex xmlns=" +:+ JS.dq +:+
  SiteMapGenerator.xmlNamespace +:+ JS.dq +:+ ">" +:+ JS.nl.

Definition sitemapindex_close : string := "</sitemapindex>" +:+ JS.nl.

(** The routes that [generate] renders. *)
Definition selected {A : Type} (limit : option Z) (l : list A) : list A :=
  match limit with
  | Some e => if SiteMapGenerator.limit_truthy limit then JS.slice0 l e else l
  | None => l
  end.

Definition points_to (h : list object) (l : list addr) (rs : list SitemapPath) : Prop :=
  Forall2 (fun a r => h !! a = Some (Route r)) l rs.


(** The text of a document, line by line. *)

Definition lastmod_line (r : SitemapPath) : string :=
  match lastModified r with
  | Some (AString s) =>
      if JS.string_truthy s
      then "    <lastmod>" +:+ s +:+ "</lastmod>" +:+ JS.nl
      else EmptyString
  | Some (ADate d) => "    <lastmod>" +:+ JS.toISOString d +:+ "</lastmod>" +:+ JS.nl
  | None => EmptyString
  end.

Definition changefreq_line (r : SitemapPath) : string :=
  match changeFrequency r with
  | Some c =>
      if JS.string_truthy c
      then "    <changefreq>" +:+ c +:+ "</changefreq>" +:+ JS.nl
      else EmptyString
  | None => EmptyString
  end.

Definition priority_line (r : SitemapPath) : string :=
  match priority r with
  | Some p =>
      if JS.number_truthy p
      then "    <priority>" +:+ JS.Number_toString p +:+ "</priority>" +:+ JS.nl
      else EmptyString
  | None => EmptyString
  end.

Definition link_line (kv : string * string) : string :=
  "    <xhtml:link rel=" +:+ JS.dq +:+ "alternate" +:+ JS.dq +:+
  " hreflang=" +:+ JS.dq +:+ fst kv +:+ JS.dq +:+
  " href=" +:+ JS.dq +:+ snd kv +:+ JS.dq +:+ " />" +:+ JS.nl.

Definition link_lines (r : SitemapPath) : string :=
  match hreflang r with
  | Some h => String.concat EmptyString (map link_line (JS.Object_entries h))
  | None => EmptyString
  end.

(** One [<url>] block: the text that a route adds to a [<urlset>]. *)
Definition url_block (r : SitemapPath) : string :=
  "  <url>" +:+ JS.nl +:+
  "    <loc>" +:+ path r +:+ "</loc>" +:+ JS.nl +:+
  lastmod_line r +:+ changefreq_line r +:+ priority_line r +:+ link_lines r +:+
  "  </url>" +:+ JS.nl.

(** One [<sitemap>] block of a [<sitemapindex>]. *)
Definition sitemap_block (loc : string) : string :=
  "  <sitemap>" +:+ JS.nl +:+ "    <loc>" +:+ loc +:+ "</loc>" +:+ JS.nl +:+
  "  </sitemap>" +:+ JS.nl.

Definition urlset (rs : list SitemapPath) : string :=
  urlset_open +:+ String.concat EmptyString (map url_block rs) +:+ urlset_close.

Definition sitemapindex (locs : list string) : string :=
  sitemapindex_open +:+ String.concat EmptyString (map sitemap_block locs) +:+
  sitemapindex_close.


(** Reading a dictionary by key. *)
Fixpoint dict_get (k : string) (o : JS.Dict) : option string :=
  match o with
  | [] => None
  | (k', v) :: rest => if String.eqb k' k then Some v else dict_get k rest
  end.

(** The codes that [Object.entries] lists where they were inserted. *)
Definition plain_code (code : string) : Prop :=
  JS.array_index code = None /\ code <> "__proto__".


Definition plain_code_b (code : string) : bool :=
  match JS.array_index code with
  | Some _ => false
  | None => negb (String.eqb code "__proto__")
  end.

(** [s] with another list of locale codes. *)
Definition with_locales (s : SitemapFields) (codes : list string) : SitemapFields :=
  mkSitemap (paths s) (_split s) (_maxURLsPerSitemap s) (_splitByLanguages s)
    (baseUrl s) codes.

(** The hreflang mapping that the second testable property describes:
    one entry per code of [L], in the order of [L]. *)
Definition hreflang_per_code (B : string) (L : list string) (P : string)
    (r' : SitemapPath) : Prop :=
  exists h, hreflang r' = Some h /\
    JS.Object_entries h =
    map (fun code => (code, B +:+ "/" +:+ code +:+ "/" +:+ drop_slashes P)) L.

(** A store with one collection for https://example.com and nothing else. *)
Definition example_fields (L : list string) : SitemapFields :=
  mkSitemap [] false (JS.Int 50000) true "https://example.com" L.

Definition example_world (L : list string) : World :=
  mkWorld [Collection (example_fields L)] [].

Definition bare (p : string) : SitemapPath := mkSitemapPath p None None None None.

(** [s.includes(sub)]: [sub] occurs somewhere in [s]. *)
Fixpoint includes (sub s : string) : bool :=
  match strip_prefix sub s with
  | Some _ => true
  | None =>
      match s with
      | EmptyString => false
      | String _ s' => includes sub s'
      end
  end.

(** [held w g urls rs]: in [w], [g] is a serializer whose references [urls]
    lead to the route records [rs]. *)
Definition held (w : World) (g : addr) (urls : list addr) (rs : list SitemapPath) : Prop :=
  heap w !! g = Some (Serializer urls) /\ points_to (heap w) urls rs.

(** The document that the fourth testable property describes for a limit:
    the blocks of the first [limit] routes. *)
Definition first_blocks (limit : Z) (rs : list SitemapPath) (xml : string) : Prop :=
  xml = urlset (take (Z.to_nat limit) rs).

(** The output that the round-trip property describes for a priority 0. *)
Definition omits_priority (xml : string) : Prop :=
  includes "<priority>" xml = false.

(** The store after [new Sitemap("https://example.com")] and [add("/")]:
    the collection, the record made from the bare string, and the stored
    route. *)
Definition home_route : SitemapPath :=
  mkSitemapPath "https://example.com/" None None (Some (JS.Int 1)) None.

Definition one_route_fields : SitemapFields :=
  mkSitemap [2%nat] false (JS.Int 50000) true "https://example.com" [].

Definition one_route_world : World :=
  mkWorld [Collection one_route_fields; Route (bare "/"); Route home_route] [].

(** The same after a second call, [add("/about")]. *)
Definition about_route : SitemapPath :=
  mkSitemapPath "https://example.com/about" None None (Some (JS.Int 1)) None.

Definition two_routes_fields : SitemapFields :=
  mkSitemap [2%nat; 4%nat] false (JS.Int 50000) true "https://example.com" [].

Definition two_routes_world : World :=
  mkWorld [Collection two_routes_fields; Route (bare "/"); Route home_route;
           Route (bare "/about"); Route about_route] [].

(** A serializer that was given two route records. *)
Definition serializer_world : World :=
  mkWorld [Serializer [1%nat; 2%nat]; Route home_route; Route about_route] [].

(** An empty collection and the record [{ path: "/", priority: 0 }], not
    yet added. *)
Definition zero_priority_record : SitemapPath :=
  mkSitemapPath "/" None None (Some (JS.Int 0)) None.

Definition zero_priority_world : World :=
  mkWorld [Collection (example_fields []); Route zero_priority_record] [].

(** The records behind the stored references of a collection, as a caller
    that iterates over it reads them. *)
Definition stored (this : addr) : M (list SitemapPath) :=
  l ← Sitemap.Symbol_iterator this;
  for_of l (fun a rs => r ← route a; mret (rs ++ [r])) [].

(** Programs that start from an empty store. *)
Definition empty_world : World := mkWorld [] [].

Definition repeated_code_program : M (list SitemapPath) :=
  this ← Sitemap.new "https://example.com" ["en"; "en"];
  Sitemap.add this (Str "/about");;
  stored this.

Definition zero_limit_program : M string :=
  this ← Sitemap.new "https://example.com" [];
  Sitemap.add this (Str "/");;
  Sitemap.generate this (Some 0).

Definition zero_priority_program : M string :=
  this ← Sitemap.new "https://example.com" [];
  record ← alloc (Route zero_priority_record);
  Sitemap.add this (Ref record);;
  Sitemap.generate this None.

(** The route that [generateMultiLanguage] adds to the index for a code. *)
Definition index_route (B code : string) : SitemapPath :=
  mkSitemapPath (B +:+ "/" +:+ "sitemap-" +:+ code +:+ ".xml")
    None None (Some (JS.Int 1)) None.

(** The operations of a [Sitemap] instance, as calls of its methods. *)
Inductive operation : Type :=
| SetLocales (codes : list string)
| Split (flag : bool)
| MaxURLsPerSitemap (n : JS.number)
| SplitByLanguages (flag : bool)
| Add (arg : PathArg)
| Length
| Iterate
| Generate (limit : option Z)
| GenerateSitemapsList
| GenerateMultiLanguage
| ToXML
| SaveTo (destination : string).

Definition perform (this : addr) (op : operation) : M unit :=
  match op with
  | SetLocales codes => Sitemap.setLocales this codes;; mret tt
  | Split flag => Sitemap.split this flag;; mret tt
  | MaxURLsPerSitemap n => Sitemap.maxURLsPerSitemap this n;; mret tt
  | SplitByLanguages flag => Sitemap.splitByLanguages this flag;; mret tt
  | Add arg => Sitemap.add this arg
  | Length => Sitemap.length this;; mret tt
  | Iterate => Sitemap.Symbol_iterator this;; mret tt
  | Generate limit => Sitemap.generate this limit;; mret tt
  | GenerateSitemapsList => Sitemap.generateSitemapsList this;; mret tt
  | GenerateMultiLanguage => Sitemap.generateMultiLanguage this;; mret tt
  | ToXML => Sitemap.toXML this;; mret tt
  | SaveTo destination => Sitemap.saveTo this destination;; mret tt
  end.

(** An operation can be called when the record it is given exists. *)
Definition callable (w : World) (op : operation) : Prop :=
  match op with
  | Add arg => exists r, arg_record w arg = Some r
  | _ => True
  end.

(** The invariant: every stored route has a priority that is not falsy. *)
Definition priority_set (r : SitemapPath) : Prop :=
  JS.truthy_number (priority r) = true.

Definition priorities_set (w : World) (this : addr) : Prop :=
  exists s rs, holds w this s rs /\ Forall priority_set rs.

Definition has_priority_line (r : SitemapPath) : Prop :=
  exists p, priority r = Some p /\
    priority_line r = "    <priority>" +:+ JS.Number_toString p +:+ "</priority>" +:+ JS.nl.

(** The fields of a collection after an operation: each of the four setters
    writes its own field, [add] is described apart, and the other
    operations leave the fields as they are. *)
Definition configured (op : operation) (s : SitemapFields) : SitemapFields :=
  match op with
  | SetLocales codes => with_locales s codes
  | Split flag =>
      mkSitemap (paths s) flag (_maxURLsPerSitemap s) (_splitByLanguages s)
        (baseUrl s) (localeCodes s)
  | MaxURLsPerSitemap n =>
      mkSitemap (paths s) (_split s) n (_splitByLanguages s) (baseUrl s) (localeCodes s)
  | SplitByLanguages flag =>
      mkSitemap (paths s) (_split s) (_maxURLsPerSitemap s) flag (baseUrl s) (localeCodes s)
  | _ => s
  end.

(** The program of the multi-language property: a collection for the
    codes en and ar, the paths ["/"] and ["/about"], then the call. *)
Definition multi_language_program : M string :=
  this ← Sitemap.new "https://example.com" ["en"; "ar"];
  Sitemap.add this (Str "/");;
  Sitemap.add this (Str "/about");;
  Sitemap.generateMultiLanguage this.

(** The document that the call computes for the code en and drops. *)
Definition child_program : M string :=
  this ← Sitemap.new "https://example.com" ["en"; "ar"];
  Sitemap.add this (Str "/");;
  Sitemap.add this (Str "/about");;
  s ← collection this;
  sitemap ← Sitemap.new (baseUrl s +:+ "/" +:+ "en") [];
  for_of (paths s) (fun r (_ : unit) => Sitemap.add sitemap (Ref r)) tt;;
  Sitemap.toXML sitemap.

Definition multi_language_routes : list SitemapPath :=
  [mkSitemapPath "https://example.com/" None None (Some (JS.Int 1))
     (Some [("en", "https://example.com/en/"); ("ar", "https://example.com/ar/")]);
   mkSitemapPath "https://example.com/about" None None (Some (JS.Int 1))
     (Some [("en", "https://example.com/en/about"); ("ar", "https://example.com/ar/about")])].

(** The store of that program before the call. *)
Definition multi_language_fields : SitemapFields :=
  mkSitemap [2%nat; 4%nat] false (JS.Int 50000) true "https://example.com" ["en"; "ar"].

Definition multi_language_world : World :=
  mkWorld
    (Collection multi_language_fields ::
     Route (bare "/") :: Route (nth 0 multi_language_routes (bare EmptyString)) ::
     Route (bare "/about") :: Route (nth 1 multi_language_routes (bare EmptyString)) :: [])
    [].

(** [keeps h w]: every object of the store [h] is in [w] as it was. *)
Definition keeps (h : list object) (w : World) : Prop :=
  forall b o, h !! b = Some o -> heap w !! b = Some o.



(** ** Definitions for the further properties *)

(** A caller's loop [for (const p of args) sitemap.add(p)]. *)
Definition add_all (this : addr) (args : list PathArg) : M unit :=
  for_of args (fun arg (_ : unit) => Sitemap.add this arg) tt.

(** The base URLs that a stored path can be told from: not empty, and not
    beginning with a slash. *)
Definition proper_base (B : string) : Prop :=
  match B with
  | EmptyString => False
  | String c _ => c <> "/"%char
  end.

(** A record with a priority of its own, and a record that stands for a
    stored route. *)
Definition priced_record : SitemapPath :=
  mkSitemapPath "/pricing" None (Some "weekly") (Some (JS.Decimal 8 (-1))) None.

Definition priced_world : World :=
  mkWorld [Collection (example_fields []); Route priced_record] [].


(** The link line of a locale code for a path. *)
Definition alternate_line (B P code : string) : string :=
  link_line (code, B +:+ "/" +:+ code +:+ "/" +:+ drop_slashes P).

(** A record without its blank fields: an empty [lastModified] or
    [changeFrequency] string, a falsy priority, an hreflang object without
    entries. *)
Definition without_blanks (r : SitemapPath) : SitemapPath :=
  mkSitemapPath (path r)
    (match lastModified r with
     | Some (AString t) => if JS.string_truthy t then Some (AString t) else None
     | other => other
     end)
    (match changeFrequency r with
     | Some c => if JS.string_truthy c then Some c else None
     | None => None
     end)
    (if JS.truthy_number (priority r) then priority r else None)
    (match hreflang r with
     | Some h => match JS.Object_entries h with [] => None | _ :: _ => Some h end
     | None => None
     end).

(** A serializer that holds a record with blank fields only, and one that
    holds the record of the same path without any field. *)
Definition blank_record : SitemapPath :=
  mkSitemapPath "https://example.com/" (Some (AString EmptyString))
    (Some EmptyString) (Some (JS.Int 0)) (Some []).

Definition blank_world : World :=
  mkWorld [Serializer [1%nat]; Route blank_record] [].

Definition plain_world : World :=
  mkWorld [Serializer [1%nat]; Route (bare "https://example.com/")] [].


(** * Properties *)

(** ** Strings *)

Lemma str_app_cons (c : ascii) (a b : string) : String c a +:+ b = String c (a +:+ b).
Proof. reflexivity. Qed.

Lemma str_app_nil_l (s : string) : EmptyString +:+ s = s.
Proof. reflexivity. Qed.

Lemma str_app_nil_r (s : string) : s +:+ EmptyString = s.
Proof. induction s as [|c s IH]; [done|]. by rewrite str_app_cons, IH. Qed.

Lemma str_app_assoc (a b c : string) : (a +:+ b) +:+ c = a +:+ b +:+ c.
Proof.
  induction a as [|x a IH]; [done|].
  by rewrite !str_app_cons, IH.
Qed.

Lemma strip_prefix_slash (c : ascii) (s : string) :
  strip_prefix "/" (String c s) = if Ascii.eqb c "/" then Some s else None.
Proof.
  change (strip_prefix "/" (String c s))
    with (if Ascii.eqb "/" c then Some s else None).
  by rewrite Ascii.eqb_sym.
Qed.

Lemma ltrim_loop_slash (n : nat) (s : string) :
  (String.length s <= n)%nat -> ltrim_loop n s "/" = drop_slashes s.
Proof.
  revert s. induction n as [|n IH]; intros [|c s] Hn; cbn [String.length] in Hn;
    try done; try lia.
  cbn [ltrim_loop drop_slashes]. rewrite strip_prefix_slash.
  destruct (Ascii.eqb c "/"); [|done].
  apply IH. lia.
Qed.

Lemma ltrim_slash (s : string) : ltrim s "/" = drop_slashes s.
Proof. apply ltrim_loop_slash. done. Qed.

Lemma drop_slashes_split (s : string) :
  exists k, s = slashes k +:+ drop_slashes s /\ no_leading_slash (drop_slashes s).
Proof.
  induction s as [|c s [k [IH1 IH2]]]; [by exists O|].
  cbn [drop_slashes]. destruct (Ascii.eqb_spec c "/") as [->|Hc].
  - exists (S k). split; [|done].
    cbn [slashes]. rewrite str_app_cons. by rewrite <- IH1.
  - by exists O.
Qed.

Lemma drop_slashes_unique (k : nat) (q : string) :
  no_leading_slash q -> drop_slashes (slashes k +:+ q) = q.
Proof.
  intros Hq. induction k as [|k IH]; cbn [slashes].
  - rewrite str_app_nil_l. destruct q as [|c q]; [done|]. cbn [drop_slashes no_leading_slash] in *.
    by destruct (Ascii.eqb_spec c "/").
  - rewrite str_app_cons. cbn [drop_slashes]. rewrite Ascii.eqb_refl. apply IH.
Qed.

(** ** Running computations *)

Lemma bind_run {A B : Type} (m : M A) (f : A -> M B) (w w' : World) (a : A) :
  m w = Some (a, w') -> (m ≫= f) w = f a w'.
Proof. intros H. unfold mbind, M_bind. by rewrite H. Qed.

(** [run t]: the first computation of a sequence returns, by [t]. *)
Tactic Notation "run" tactic3(t) := erewrite bind_run; [|t].

Lemma load_run (a : addr) (o : object) (w : World) :
  heap w !! a = Some o -> load a w = Some (o, w).
Proof. intros H. unfold load. by rewrite H. Qed.

Lemma route_run (a : addr) (r : SitemapPath) (w : World) :
  heap w !! a = Some (Route r) -> route a w = Some (r, w).
Proof. intros H. unfold route. by rewrite (bind_run _ _ _ _ _ (load_run _ _ _ H)). Qed.

Lemma collection_run (a : addr) (s : SitemapFields) (w : World) :
  heap w !! a = Some (Collection s) -> collection a w = Some (s, w).
Proof. intros H. unfold collection. by rewrite (bind_run _ _ _ _ _ (load_run _ _ _ H)). Qed.

Lemma serializer_run (a : addr) (urls : list addr) (w : World) :
  heap w !! a = Some (Serializer urls) -> serializer a w = Some (urls, w).
Proof. intros H. unfold serializer. by rewrite (bind_run _ _ _ _ _ (load_run _ _ _ H)). Qed.

Lemma store_run (a : addr) (o o0 : object) (w : World) :
  heap w !! a = Some o0 ->
  store a o w = Some (tt, mkWorld (<[a := o]> (heap w)) (files w)).
Proof. intros H. unfold store. by rewrite H. Qed.

Lemma lookup_last (h : list object) (o : object) : (h ++ [o]) !! length h = Some o.
Proof. by apply list_lookup_middle. Qed.

Lemma insert_last (h : list object) (o o' : object) :
  <[length h := o']> (h ++ [o]) = h ++ [o'].
Proof.
  replace (length h) with (length h + 0)%nat by lia.
  by rewrite insert_app_r.
Qed.

Lemma lookup_old (h ext : list object) (a : addr) (o : object) :
  h !! a = Some o -> (h ++ ext) !! a = Some o.
Proof. intros H. by apply lookup_app_l_Some. Qed.

(** Field assignments on the object allocated last. *)
Lemma set_priority_last (h : list object) (f : list (string * string))
    (r : SitemapPath) (v : JS.number) :
  set_priority (length h) v (mkWorld (h ++ [Route r]) f) =
  Some (tt, mkWorld (h ++ [Route (mkSitemapPath (path r) (lastModified r)
                                    (changeFrequency r) (Some v) (hreflang r))]) f).
Proof.
  unfold set_priority.
  run (apply route_run; cbn [heap]; apply lookup_last).
  erewrite store_run; [|cbn [heap]; apply lookup_last].
  cbn [heap files]. by rewrite insert_last.
Qed.

Lemma set_hreflang_last (h : list object) (f : list (string * string))
    (r : SitemapPath) (v : JS.Dict) :
  set_hreflang (length h) v (mkWorld (h ++ [Route r]) f) =
  Some (tt, mkWorld (h ++ [Route (mkSitemapPath (path r) (lastModified r)
                                    (changeFrequency r) (priority r) (Some v))]) f).
Proof.
  unfold set_hreflang.
  run (apply route_run; cbn [heap]; apply lookup_last).
  erewrite store_run; [|cbn [heap]; apply lookup_last].
  cbn [heap files]. by rewrite insert_last.
Qed.

Lemma set_path_last (h : list object) (f : list (string * string))
    (r : SitemapPath) (v : string) :
  set_path (length h) v (mkWorld (h ++ [Route r]) f) =
  Some (tt, mkWorld (h ++ [Route (mkSitemapPath v (lastModified r)
                                    (changeFrequency r) (priority r) (hreflang r))]) f).
Proof.
  unfold set_path.
  run (apply route_run; cbn [heap]; apply lookup_last).
  erewrite store_run; [|cbn [heap]; apply lookup_last].
  cbn [heap files]. by rewrite insert_last.
Qed.

Lemma set_hreflang_entry_last (h : list object) (f : list (string * string))
    (r : SitemapPath) (d : JS.Dict) (k v : string) :
  hreflang r = Some d ->
  set_hreflang_entry (length h) k v (mkWorld (h ++ [Route r]) f) =
  Some (tt, mkWorld (h ++ [Route (mkSitemapPath (path r) (lastModified r)
                       (changeFrequency r) (priority r) (Some (JS.dict_set k v d)))]) f).
Proof.
  intros Hd. unfold set_hreflang_entry.
  run (apply route_run; cbn [heap]; apply lookup_last).
  rewrite Hd. apply set_hreflang_last.
Qed.

(** The loop of [parsePath] over the locale codes. *)
Lemma parsePath_loop (this : addr) (s : SitemapFields) (h : list object)
    (f : list (string * string)) (p : string) lm cf pr (codes : list string) :
  h !! this = Some (Collection s) ->
  forall d : JS.Dict,
  for_of codes (fun localeCode (_ : unit) =>
      s ← collection this;
      r ← route (length h);
      set_hreflang_entry (length h) localeCode
        (baseUrl s +:+ "/" +:+ localeCode +:+ "/" +:+ ltrim (path r) "/")) tt
    (mkWorld (h ++ [Route (mkSitemapPath p lm cf pr (Some d))]) f) =
  Some (tt, mkWorld (h ++ [Route (mkSitemapPath p lm cf pr
      (Some (fold_left (fun d code =>
         JS.dict_set code (baseUrl s +:+ "/" +:+ code +:+ "/" +:+ ltrim p "/") d)
         codes d)))]) f).
Proof.
  intros Hthis. induction codes as [|c codes IH]; intros d; [done|].
  cbn [for_of fold_left].
  erewrite bind_run; [apply IH|].
  run (apply collection_run; cbn [heap]; by apply lookup_old).
  run (apply route_run; cbn [heap]; apply lookup_last).
  by erewrite set_hreflang_entry_last.
Qed.

Lemma alloc_run (o : object) (w : World) :
  alloc o w = Some (length (heap w), mkWorld (heap w ++ [o]) (files w)).
Proof. reflexivity. Qed.

Lemma clone_run (a : addr) (r : SitemapPath) (w : World) :
  heap w !! a = Some (Route r) ->
  clone a w = Some (length (heap w), mkWorld (heap w ++ [Route r]) (files w)).
Proof.
  intros H. unfold clone. by run (by apply route_run).
Qed.

(** What [parsePath] does once its argument is a record in the store. *)
Lemma parsePath_body (this a : addr) (s : SitemapFields) (r : SitemapPath)
    (h : list object) (f : list (string * string)) :
  h !! this = Some (Collection s) ->
  h !! a = Some (Route r) ->
  (internalRoute ← clone a;
   r ← route internalRoute;
   (if negb (JS.truthy_number (priority r))
    then set_priority internalRoute (JS.Int 1)
    else mret tt);;
   s ← collection this;
   match localeCodes s with
   | [] => mret tt
   | _ :: _ =>
       set_hreflang internalRoute [];;
       for_of (localeCodes s) (fun localeCode (_ : unit) =>
         s ← collection this;
         r ← route internalRoute;
         set_hreflang_entry internalRoute localeCode
           (baseUrl s +:+ "/" +:+ localeCode +:+ "/" +:+ ltrim (path r) "/")) tt
   end;;
   s ← collection this;
   r ← route internalRoute;
   set_path internalRoute (baseUrl s +:+ "/" +:+ ltrim (path r) "/");;
   mret internalRoute) (mkWorld h f) =
  Some (length h, mkWorld (h ++ [Route (normalized s r)]) f).
Proof.
  intros Hthis Ha.
  run (by apply clone_run). cbn [heap files].
  run (apply route_run; cbn [heap]; apply lookup_last).
  set (r1 := mkSitemapPath (path r) (lastModified r) (changeFrequency r)
               (if JS.truthy_number (priority r) then priority r else Some (JS.Int 1))
               (hreflang r)).
  erewrite (bind_run _ _ _ (mkWorld (h ++ [Route r1]) f) tt).
  2:{ subst r1. destruct (JS.truthy_number (priority r)); cbn [negb].
      - by destruct r.
      - apply set_priority_last. }
  run (apply collection_run; cbn [heap]; by apply lookup_old).
  set (r2 := mkSitemapPath (path r) (lastModified r) (changeFrequency r)
               (priority r1) (hreflang (normalized s r))).
  erewrite (bind_run _ _ _ (mkWorld (h ++ [Route r2]) f) tt).
  2:{ subst r2. unfold normalized, hreflang_of. cbn [hreflang].
      destruct (localeCodes s) as [|c codes] eqn:Hcodes; [done|].
      run (apply set_hreflang_last).
      subst r1. cbn [path lastModified changeFrequency priority hreflang].
      by erewrite (parsePath_loop this s h f). }
  run (apply collection_run; cbn [heap]; by apply lookup_old).
  run (apply route_run; cbn [heap]; apply lookup_last).
  run (apply set_path_last).
  done.
Qed.

Lemma parsePath_run (this : addr) (arg : PathArg) (w : World)
    (s : SitemapFields) (r : SitemapPath) :
  heap w !! this = Some (Collection s) ->
  arg_record w arg = Some r ->
  Sitemap.parsePath this arg w =
  Some (length (heap w ++ arg_temporaries arg),
        mkWorld (heap w ++ arg_temporaries arg ++ [Route (normalized s r)]) (files w)).
Proof.
  intros Hthis Harg. destruct w as [h f]. cbn [heap files] in *.
  unfold Sitemap.parsePath.
  destruct arg as [p|a]; cbn [arg_record arg_temporaries heap] in *.
  - simplify_eq. run (apply alloc_run). cbn [heap files].
    erewrite (parsePath_body this (length h) s);
      [|by apply lookup_old|apply lookup_last].
    by rewrite <- app_assoc.
  - destruct (h !! a) as [[r'| |]|] eqn:Ha; simplify_eq.
    erewrite (bind_run (mret a)); [|reflexivity].
    rewrite (parsePath_body this a s r h f); [|done..].
    by rewrite !app_nil_r.
Qed.

Lemma insert_old (h ext : list object) (a : addr) (o o0 : object) :
  h !! a = Some o0 -> <[a := o]> (h ++ ext) = <[a := o]> h ++ ext.
Proof. intros H. apply insert_app_l. by eapply lookup_lt_Some. Qed.

Lemma add_run (this : addr) (arg : PathArg) (w : World)
    (s : SitemapFields) (r : SitemapPath) :
  heap w !! this = Some (Collection s) ->
  arg_record w arg = Some r ->
  Sitemap.add this arg w =
  Some (tt, mkWorld
    (<[this := Collection (push s (length (heap w ++ arg_temporaries arg)))]> (heap w)
       ++ arg_temporaries arg ++ [Route (normalized s r)])
    (files w)).
Proof.
  intros Hthis Harg. unfold Sitemap.add.
  run (by apply parsePath_run).
  run (apply collection_run; cbn [heap]; by apply lookup_old).
  erewrite store_run; [|cbn [heap]; by apply lookup_old].
  cbn [heap files]. by erewrite insert_old.
Qed.

(** *** The serializer *)

Lemma points_to_app (h ext : list object) (l : list addr) (rs : list SitemapPath) :
  points_to h l rs -> points_to (h ++ ext) l rs.
Proof.
  unfold points_to. intros H. eapply Forall2_impl; [exact H|].
  intros a r Ha. by apply lookup_old.
Qed.

Lemma points_to_fresh (h : list object) (rs : list SitemapPath) :
  points_to (h ++ map Route rs) (seq (length h) (length rs)) rs.
Proof.
  revert h. induction rs as [|r rs IH]; intros h; [constructor|].
  cbn [map length seq]. constructor.
  - by apply list_lookup_middle.
  - specialize (IH (h ++ [Route r])).
    rewrite <- app_assoc, length_app in IH. cbn in IH.
    by replace (length h + 1)%nat with (S (length h)) in IH by lia.
Qed.

Lemma points_to_selected (h : list object) (limit : option Z)
    (l : list addr) (rs : list SitemapPath) :
  points_to h l rs -> points_to h (selected limit l) (selected limit rs).
Proof.
  intros H. unfold selected. destruct limit as [e|]; [|done].
  destruct (SiteMapGenerator.limit_truthy (Some e)); [|done].
  unfold JS.slice0. rewrite (Forall2_length _ _ _ H).
  by apply Forall2_take.
Qed.

Lemma generator_add_run (h : list object) (f : list (string * string))
    (urls l : list addr) :
  SiteMapGenerator.add (length h) urls (mkWorld (h ++ [Serializer l]) f) =
  Some (length h, mkWorld (h ++ [Serializer (l ++ urls)]) f).
Proof.
  unfold SiteMapGenerator.add.
  erewrite (bind_run _ _ _ (mkWorld (h ++ [Serializer (l ++ urls)]) f) tt); [done|].
  revert l. induction urls as [|u urls IH]; intros l.
  - by rewrite app_nil_r.
  - cbn [for_of]. erewrite bind_run.
    2:{ run (apply serializer_run; cbn [heap]; apply lookup_last).
        erewrite store_run; [|cbn [heap]; apply lookup_last].
        cbn [heap files]. by rewrite insert_last. }
    rewrite IH. by rewrite <- app_assoc.
Qed.

Lemma clone_array_ext (h : list object) (urls : list addr) (rs : list SitemapPath) :
  points_to h urls rs ->
  forall (ext : list object) (f : list (string * string)),
  clone_array urls (mkWorld (h ++ ext) f) =
  Some (seq (length (h ++ ext)) (length rs), mkWorld (h ++ ext ++ map Route rs) f).
Proof.
  unfold points_to. induction 1 as [|a r urls rs Ha Hrest IH]; intros ext f.
  - cbn. by rewrite app_nil_r.
  - cbn [clone_array].
    run (apply clone_run; cbn [heap]; by apply lookup_old).
    cbn [heap files]. rewrite <- app_assoc.
    run (apply IH).
    cbn [mret M_ret map length seq]. rewrite <- !app_assoc.
    rewrite !length_app. cbn [length].
    by replace (length h + (length ext + 1))%nat with (S (length h + length ext)) by lia.
Qed.

Lemma clone_array_run (urls : list addr) (rs : list SitemapPath) (w : World) :
  points_to (heap w) urls rs ->
  clone_array urls w =
  Some (seq (length (heap w)) (length rs), mkWorld (heap w ++ map Route rs) (files w)).
Proof.
  intros H. destruct w as [h f]. cbn [heap files] in *.
  pose proof (clone_array_ext h urls rs H [] f) as E.
  by rewrite !app_nil_r in E.
Qed.

Lemma read_loop {S : Type} (step : S -> SitemapPath -> S) (w : World)
    (l : list addr) (rs : list SitemapPath) :
  points_to (heap w) l rs ->
  forall acc : S,
  for_of l (fun a acc => r ← route a; mret (step acc r)) acc w =
  Some (fold_left step rs acc, w).
Proof.
  unfold points_to. induction 1 as [|a r l rs Ha Hrest IH]; intros acc; [done|].
  cbn [for_of fold_left].
  erewrite bind_run; [apply IH|].
  by run (by apply route_run).
Qed.

Lemma generator_generate_run (g : addr) (limit : option Z) (w : World)
    (urls : list addr) (rs : list SitemapPath) :
  heap w !! g = Some (Serializer urls) ->
  points_to (heap w) urls rs ->
  SiteMapGenerator.generate g limit w =
  Some (fold_left SiteMapGenerator.url_entry (selected limit rs) urlset_open +:+ urlset_close,
        mkWorld (heap w ++ map Route rs) (files w)).
Proof.
  intros Hg Hrs. unfold SiteMapGenerator.generate.
  run (by apply serializer_run).
  run (by apply clone_array_run).
  erewrite bind_run.
  2:{ apply (read_loop SiteMapGenerator.url_entry _ _ (selected limit rs)).
      cbn [heap]. apply (points_to_selected _ limit), points_to_fresh. }
  reflexivity.
Qed.

Lemma generator_list_run (g : addr) (w : World)
    (urls : list addr) (rs : list SitemapPath) :
  heap w !! g = Some (Serializer urls) ->
  points_to (heap w) urls rs ->
  SiteMapGenerator.generateSitemapsList g w =
  Some (fold_left SiteMapGenerator.sitemap_entry rs sitemapindex_open +:+ sitemapindex_close,
        mkWorld (heap w ++ map Route rs) (files w)).
Proof.
  intros Hg Hrs. unfold SiteMapGenerator.generateSitemapsList.
  run (by apply serializer_run).
  run (by apply clone_array_run).
  erewrite bind_run.
  2:{ apply (read_loop SiteMapGenerator.sitemap_entry _ _ rs).
      cbn [heap]. apply points_to_fresh. }
  reflexivity.
Qed.

Lemma generate_run (this : addr) (limit : option Z) (w : World)
    (s : SitemapFields) (rs : list SitemapPath) :
  holds w this s rs ->
  Sitemap.generate this limit w =
  Some (fold_left SiteMapGenerator.url_entry (selected limit rs) urlset_open +:+ urlset_close,
        mkWorld (heap w ++ Serializer (paths s) :: map Route rs) (files w)).
Proof.
  intros [Hthis Hrs]. unfold Sitemap.generate.
  run (by apply collection_run).
  run (apply alloc_run).
  run (apply (generator_add_run _ _ _ [])).
  erewrite generator_generate_run;
    [|cbn [heap]; apply lookup_last|cbn [heap]; by apply points_to_app].
  cbn [heap files app]. by rewrite <- app_assoc.
Qed.

Lemma generateSitemapsList_run (this : addr) (w : World)
    (s : SitemapFields) (rs : list SitemapPath) :
  holds w this s rs ->
  Sitemap.generateSitemapsList this w =
  Some (fold_left SiteMapGenerator.sitemap_entry rs sitemapindex_open +:+ sitemapindex_close,
        mkWorld (heap w ++ Serializer (paths s) :: map Route rs) (files w)).
Proof.
  intros [Hthis Hrs]. unfold Sitemap.generateSitemapsList.
  run (by apply collection_run).
  run (apply alloc_run).
  run (apply (generator_add_run _ _ _ [])).
  erewrite generator_list_run;
    [|cbn [heap]; apply lookup_last|cbn [heap]; by apply points_to_app].
  cbn [heap files app]. by rewrite <- app_assoc.
Qed.

(** *** The text of a document *)

Lemma concat_cons (x : string) (l : list string) :
  String.concat EmptyString (x :: l) = x +:+ String.concat EmptyString l.
Proof.
  destruct l as [|y l]; cbn [String.concat].
  - by rewrite str_app_nil_r.
  - by rewrite str_app_nil_l.
Qed.

Lemma fold_left_append {A : Type} (f : A -> string) (l : list A) (acc : string) :
  fold_left (fun xml x => xml +:+ f x) l acc =
  acc +:+ String.concat EmptyString (map f l).
Proof.
  revert acc. induction l as [|x l IH]; intros acc.
  - cbn. by rewrite str_app_nil_r.
  - cbn [fold_left map]. by rewrite IH, concat_cons, str_app_assoc.
Qed.

Lemma url_entry_block (xml : string) (r : SitemapPath) :
  SiteMapGenerator.url_entry xml r = xml +:+ url_block r.
Proof.
  unfold SiteMapGenerator.url_entry, url_block,
    lastmod_line, changefreq_line, priority_line, link_lines.
  destruct r as [p lm cf pr hl]. cbn [path lastModified changeFrequency priority hreflang].
  assert (L : forall a : string, a +:+ EmptyString = a) by apply str_app_nil_r.
  destruct lm as [[d|s]|]; [|destruct (JS.string_truthy s)|];
  (destruct cf as [c|]; [destruct (JS.string_truthy c)|]);
  (destruct pr as [n|]; [destruct (JS.number_truthy n)|]);
  (destruct hl as [h|];
   [rewrite (fold_left_append link_line)|]);
  rewrite ?str_app_assoc, ?str_app_nil_l; reflexivity.
Qed.

Lemma urlset_fold (rs : list SitemapPath) :
  fold_left SiteMapGenerator.url_entry rs urlset_open +:+ urlset_close = urlset rs.
Proof.
  unfold urlset. rewrite <- str_app_assoc. f_equal.
  rewrite <- (fold_left_append url_block).
  generalize urlset_open. induction rs as [|r rs IH]; intros acc; [done|].
  cbn [fold_left]. by rewrite IH, url_entry_block.
Qed.

Lemma sitemapindex_fold (rs : list SitemapPath) :
  fold_left SiteMapGenerator.sitemap_entry rs sitemapindex_open +:+ sitemapindex_close =
  sitemapindex (map path rs).
Proof.
  unfold sitemapindex. rewrite <- str_app_assoc. f_equal.
  rewrite map_map. rewrite <- (fold_left_append (fun r => sitemap_block (path r))).
  generalize sitemapindex_open. induction rs as [|r rs IH]; intros acc; [done|].
  cbn [fold_left]. rewrite IH. f_equal.
  unfold SiteMapGenerator.sitemap_entry, sitemap_block.
  by rewrite !str_app_assoc.
Qed.

(** *** What [add] leaves behind *)

Lemma holds_route_not_collection (w : World) (this a : addr) (s : SitemapFields)
    (r : SitemapPath) :
  heap w !! this = Some (Collection s) -> heap w !! a = Some (Route r) -> a <> this.
Proof. intros H1 H2 ->. congruence. Qed.

Lemma add_holds (w : World) (this : addr) (s : SitemapFields) (rs : list SitemapPath)
    (arg : PathArg) (r : SitemapPath) :
  holds w this s rs ->
  arg_record w arg = Some r ->
  exists w' a,
    Sitemap.add this arg w = Some (tt, w') /\
    holds w' this (push s a) (rs ++ [normalized s r]) /\
    heap w !! a = None /\
    heap w' !! a = Some (Route (normalized s r)) /\
    files w' = files w /\
    (forall b o, b <> this -> heap w !! b = Some o -> heap w' !! b = Some o).
Proof.
  intros [Hthis Hrs] Harg.
  eexists _, (length (heap w ++ arg_temporaries arg)).
  split; [by apply add_run|]. cbn [heap files].
  assert (Hlt : (this < length (heap w))%nat) by by eapply lookup_lt_Some.
  assert (Hnew : (<[this:=Collection (push s (length (heap w ++ arg_temporaries arg)))]>
                    (heap w) ++ arg_temporaries arg ++ [Route (normalized s r)])
                 !! length (heap w ++ arg_temporaries arg) = Some (Route (normalized s r))).
  { rewrite app_assoc. apply list_lookup_middle.
    by rewrite !length_app, length_insert. }
  assert (Hframe : forall b o, b <> this -> heap w !! b = Some o ->
            (<[this:=Collection (push s (length (heap w ++ arg_temporaries arg)))]>
               (heap w) ++ arg_temporaries arg ++ [Route (normalized s r)]) !! b = Some o).
  { intros b o Hb Ho. apply lookup_old. by rewrite list_lookup_insert_ne. }
  split; [|split; [|split; [|split]]]; try done.
  - split.
    + apply lookup_old. by apply list_lookup_insert_eq.
    + cbn [push paths]. apply Forall2_app; [|by constructor].
      eapply Forall2_impl; [exact Hrs|]. intros a r' Ha. cbn beta in *.
      apply Hframe; [|done]. by eapply holds_route_not_collection.
  - apply lookup_ge_None. rewrite length_app. lia.
Qed.

(** *** The dictionary built by [parsePath] *)

Lemma dict_get_update (k k' v : string) (o : JS.Dict) :
  dict_get k' (JS.dict_update k v o) = if String.eqb k k' then Some v else dict_get k' o.
Proof.
  induction o as [|[k0 v0] o IH]; cbn [JS.dict_update dict_get].
  - done.
  - destruct (String.eqb_spec k0 k) as [->|Hk0]; cbn [dict_get].
    + by destruct (String.eqb k k').
    + rewrite IH. destruct (String.eqb_spec k0 k') as [->|?]; [|done].
      destruct (String.eqb_spec k k'); [congruence|done].
Qed.

Lemma dict_update_fresh (k v : string) (o : JS.Dict) :
  k ∉ map fst o -> JS.dict_update k v o = o ++ [(k, v)].
Proof.
  induction o as [|[k0 v0] o IH]; intros Hk; [done|].
  cbn [JS.dict_update map fst] in *. apply not_elem_of_cons in Hk as [Hne Hk].
  destruct (String.eqb_spec k0 k); [congruence|].
  cbn [app]. by rewrite IH.
Qed.

Lemma hreflang_fold_plain (value : string -> string) (codes : list string) :
  NoDup codes ->
  Forall plain_code codes ->
  forall acc : JS.Dict,
  (forall c, c ∈ codes -> c ∉ map fst acc) ->
  fold_left (fun h code => JS.dict_set code (value code) h) codes acc =
  acc ++ map (fun code => (code, value code)) codes.
Proof.
  induction 1 as [|c codes Hc Hnd IH]; intros Hplain acc Hacc.
  - cbn. by rewrite app_nil_r.
  - apply Forall_cons in Hplain as [[_ Hproto] Hplain].
    cbn [fold_left map]. unfold JS.dict_set at 2.
    destruct (String.eqb_spec c "__proto__"); [done|].
    rewrite dict_update_fresh by (apply Hacc; left).
    rewrite IH; [by rewrite <- app_assoc|done|].
    intros c' Hc'. rewrite map_app. cbn [map fst].
    intros [Hin|Hin%list_elem_of_singleton]%elem_of_app.
    + revert Hin. apply Hacc. by right.
    + by subst.
Qed.

Lemma hreflang_fold_get (value : string -> string) (codes : list string) (k : string) :
  forall acc : JS.Dict,
  dict_get k (fold_left (fun h code => JS.dict_set code (value code) h) codes acc) =
  if decide (k ∈ codes /\ k <> "__proto__") then Some (value k) else dict_get k acc.
Proof.
  induction codes as [|c codes IH]; intros acc; cbn [fold_left].
  - rewrite decide_False; [done|]. intros [H _]. by apply elem_of_nil in H.
  - rewrite IH. unfold JS.dict_set.
    destruct (String.eqb_spec c "__proto__") as [->|Hc].
    + apply decide_ext. rewrite elem_of_cons. tauto.
    + rewrite dict_get_update.
      destruct (String.eqb_spec c k) as [->|Hck].
      * rewrite (decide_True (P := k ∈ k :: codes /\ _)); [|split; [left|done]].
        by destruct (decide _).
      * apply decide_ext. rewrite elem_of_cons. intuition congruence.
Qed.

Lemma entries_plain (o : JS.Dict) :
  Forall (fun kv => JS.array_index (fst kv) = None) o -> JS.Object_entries o = o.
Proof.
  intros H. unfold JS.Object_entries.
  assert (E : JS.index_entries o = [] /\ JS.named_entries o = o).
  { unfold JS.index_entries, JS.named_entries.
    induction H as [|kv o Hkv _ [IH1 IH2]]; [done|].
    cbv beta in Hkv. cbn [omap list_omap List.filter]. rewrite Hkv.
    split; [exact IH1|f_equal; exact IH2]. }
  destruct E as [-> ->]. done.
Qed.

(** *** Updates of the fields of a collection *)

Lemma holds_update (w : World) (this : addr) (s s' : SitemapFields)
    (rs : list SitemapPath) :
  holds w this s rs ->
  paths s' = paths s ->
  holds (mkWorld (<[this := Collection s']> (heap w)) (files w)) this s' rs.
Proof.
  intros [Hthis Hrs] Hp. split; cbn [heap].
  - apply list_lookup_insert_eq. by eapply lookup_lt_Some.
  - rewrite Hp. eapply Forall2_impl; [exact Hrs|]. intros a r Ha. cbn beta in *.
    rewrite list_lookup_insert_ne; [done|].
    intros <-. congruence.
Qed.

Lemma setLocales_run (this : addr) (codes : list string) (w : World) (s : SitemapFields) :
  heap w !! this = Some (Collection s) ->
  Sitemap.setLocales this codes w =
  Some (this, mkWorld (<[this := Collection (with_locales s codes)]> (heap w)) (files w)).
Proof.
  intros H. unfold Sitemap.setLocales.
  run (by apply collection_run).
  run (by eapply store_run). done.
Qed.

Lemma arg_record_frame (w w' : World) (this : addr) (s : SitemapFields)
    (arg : PathArg) (r : SitemapPath) :
  heap w !! this = Some (Collection s) ->
  (forall b o, b <> this -> heap w !! b = Some o -> heap w' !! b = Some o) ->
  arg_record w arg = Some r -> arg_record w' arg = Some r.
Proof.
  intros Hthis Hframe. destruct arg as [p|a]; cbn [arg_record]; [done|].
  destruct (heap w !! a) as [[r0| |]|] eqn:Ha; try done. intros [= ->].
  rewrite (Hframe a (Route r)); [done| |done]. intros ->. congruence.
Qed.

(** ** The example stores are stores that the program reaches *)

Example example_world_reached (L : list string) :
  Sitemap.new "https://example.com" L empty_world = Some (0%nat, example_world L).
Proof. reflexivity. Qed.

Example one_route_world_reached :
  (this ← Sitemap.new "https://example.com" [];
   Sitemap.add this (Str "/")) empty_world = Some (tt, one_route_world).
Proof. vm_compute. reflexivity. Qed.

Example two_routes_world_reached :
  (this ← Sitemap.new "https://example.com" [];
   Sitemap.add this (Str "/");;
   Sitemap.add this (Str "/about")) empty_world = Some (tt, two_routes_world).
Proof. vm_compute. reflexivity. Qed.

Example serializer_world_reached :
  (g ← SiteMapGenerator.new;
   a ← alloc (Route home_route);
   b ← alloc (Route about_route);
   SiteMapGenerator.add g [a; b]) empty_world = Some (0%nat, serializer_world).
Proof. vm_compute. reflexivity. Qed.

Example zero_priority_world_reached :
  (this ← Sitemap.new "https://example.com" [];
   alloc (Route zero_priority_record)) empty_world = Some (1%nat, zero_priority_world).
Proof. vm_compute. reflexivity. Qed.

Example multi_language_world_reached :
  (this ← Sitemap.new "https://example.com" ["en"; "ar"];
   Sitemap.add this (Str "/");;
   Sitemap.add this (Str "/about")) empty_world = Some (tt, multi_language_world).
Proof. vm_compute. reflexivity. Qed.

(** ** Small runs *)

Example ltrim_run : ltrim "///a//b/" "/" = "a//b/".
Proof. reflexivity. Qed.

Example toISOString_run :
  JS.toISOString (JS.mkDate 1700000000000) = "2023-11-14T22:13:20.000Z" /\
  JS.toISOString (JS.mkDate (-1)) = "1969-12-31T23:59:59.999Z" /\
  JS.toISOString (JS.mkDate 253402300800000) = "+010000-01-01T00:00:00.000Z".
Proof. split_and!; vm_compute; reflexivity. Qed.

Example Object_entries_run :
  JS.Object_entries
    (JS.dict_set "b" "5" (JS.dict_set "10" "4" (JS.dict_set "2" "3"
      (JS.dict_set "a" "2" (JS.dict_set "__proto__" "1" (JS.dict_set "a" "0" [])))))) =
  [("2", "3"); ("10", "4"); ("a", "2"); ("b", "5")].
Proof. vm_compute. reflexivity. Qed.

(** Numbers as the host prints them: plain digits up to 21 of them before
    the point and up to 6 zeros behind it, an exponent beyond; the fewest
    digits that give the number back, so an integer above 2^53 shows the
    double that it is. *)
Example Number_toString_run :
  map JS.Number_toString
    [JS.Int 1; JS.Int 50000; JS.Int (-42); JS.Decimal 8 (-1); JS.Decimal 100 (-2);
     JS.Decimal (-25) (-1); JS.Decimal 12345678 (-4);
     JS.Int (2 ^ 53); JS.Int (2 ^ 53 + 1); JS.Int 123456789012345678901;
     JS.Int (10 ^ 21 - 1); JS.Int (10 ^ 21); JS.Decimal 12 20;
     JS.Decimal 1 (-6); JS.Decimal 1 (-7); JS.Decimal 123 (-8);
     JS.Decimal 30000000000000004 (-17); JS.Decimal 3 (-1);
     JS.Decimal 17976931348623157 292; JS.Decimal 5 (-324); JS.Decimal 2 (-324);
     JS.Decimal 1 400; JS.Decimal (-1) 400; JS.Decimal 1 (-400);
     JS.NegZero; JS.NaN; JS.Infinity true] =
    ["1"; "50000"; "-42"; "0.8"; "1";
     "-2.5"; "1234.5678";
     "9007199254740992"; "9007199254740992"; "123456789012345680000";
     "1e+21"; "1e+21"; "1.2e+21";
     "0.000001"; "1e-7"; "0.00000123";
     "0.30000000000000004"; "0.3";
     "1.7976931348623157e+308"; "5e-324"; "0";
     "Infinity"; "-Infinity"; "0";
     "0"; "NaN"; "-Infinity"].
Proof. vm_compute. reflexivity. Qed.

Example number_truthy_run :
  map JS.number_truthy
    [JS.Int 1; JS.Int 0; JS.Int (-3); JS.Decimal 8 (-1); JS.Decimal 0 3;
     JS.Decimal 1 (-400); JS.NegZero; JS.NaN; JS.Infinity false] =
    [true; false; true; true; false; false; false; false; true].
Proof. vm_compute. reflexivity. Qed.

Example slice0_run :
  JS.slice0 [1; 2; 3] 2 = [1; 2] /\ JS.slice0 [1; 2; 3] 5 = [1; 2; 3] /\
  JS.slice0 [1; 2; 3] (-1) = [1; 2] /\ JS.slice0 [1; 2; 3] (-5) = [].
Proof. split_and!; reflexivity. Qed.

(** [add] of a record with every field, in a collection with two codes. *)
Example add_record_run :
  fst <$> ((this ← Sitemap.new "https://example.com" ["en"; "ar"];
   record ← alloc (Route (mkSitemapPath "//docs/" (Some (ADate (JS.mkDate 0)))
                            (Some "daily") (Some (JS.Decimal 8 (-1)))
                            (Some [("fr", "https://example.com/fr/docs/")])));
   Sitemap.add this (Ref record);;
   stored this) empty_world) =
  Some [mkSitemapPath "https://example.com/docs/" (Some (ADate (JS.mkDate 0)))
          (Some "daily") (Some (JS.Decimal 8 (-1)))
          (Some [("en", "https://example.com/en/docs/");
                 ("ar", "https://example.com/ar/docs/")])].
Proof. vm_compute. reflexivity. Qed.

Example generate_run_two_routes :
  fst <$> Sitemap.generate 0%nat (Some 1) two_routes_world = Some (urlset [home_route]) /\
  fst <$> Sitemap.generate 0%nat (Some 2) two_routes_world =
    Some (urlset [home_route; about_route]) /\
  fst <$> Sitemap.generate 0%nat (Some 7) two_routes_world =
    Some (urlset [home_route; about_route]) /\
  fst <$> Sitemap.generate 0%nat (Some 0) two_routes_world =
    Some (urlset [home_route; about_route]) /\
  fst <$> Sitemap.generate 0%nat None two_routes_world =
    Some (urlset [home_route; about_route]) /\
  fst <$> Sitemap.generate 0%nat (Some (-1)) two_routes_world = Some (urlset [home_route]).
Proof. split_and!; vm_compute; reflexivity. Qed.

(** ** Normalization of an added path *)

(** C1: for every base URL and every raw path, bare or in a record, [add]
    stores a route whose path is the base URL, a slash, and the raw path
    without its leading slashes; [lastModified] and [changeFrequency] are
    those of the input. *)
Theorem add_path_normalized (w : World) (this : addr) (s : SitemapFields)
    (rs : list SitemapPath) (arg : PathArg) (r : SitemapPath) :
  holds w this s rs ->
  arg_record w arg = Some r ->
  exists w' a r',
    Sitemap.add this arg w = Some (tt, w') /\
    holds w' this (push s a) (rs ++ [r']) /\
    (exists k q, path r = slashes k +:+ q /\ no_leading_slash q /\
                 path r' = baseUrl s +:+ "/" +:+ q) /\
    lastModified r' = lastModified r /\
    changeFrequency r' = changeFrequency r.
Proof.
  intros Hholds Harg.
  destruct (add_holds w this s rs arg r Hholds Harg) as (w' & a & Hadd & Hh & _).
  exists w', a, (normalized s r). split_and!; try done.
  destruct (drop_slashes_split (path r)) as (k & Hk & Hq).
  exists k, (drop_slashes (path r)). split_and!; try done.
  cbn [normalized path]. by rewrite ltrim_slash.
Qed.

Lemma add_path_normalized_witness :
  holds (example_world []) 0%nat (example_fields []) [] /\
  arg_record (example_world []) (Str "//about/us") = Some (bare "//about/us") /\
  exists w' a r',
    Sitemap.add 0%nat (Str "//about/us") (example_world []) = Some (tt, w') /\
    holds w' 0%nat (push (example_fields []) a) ([] ++ [r']) /\
    (exists k q, path (bare "//about/us") = slashes k +:+ q /\ no_leading_slash q /\
                 path r' = baseUrl (example_fields []) +:+ "/" +:+ q) /\
    lastModified r' = lastModified (bare "//about/us") /\
    changeFrequency r' = changeFrequency (bare "//about/us").
Proof.
  assert (H : holds (example_world []) 0%nat (example_fields []) []).
  { split; [reflexivity|constructor]. }
  split; [exact H|]. split; [reflexivity|].
  exact (add_path_normalized (example_world []) 0%nat (example_fields []) []
           (Str "//about/us") (bare "//about/us") H eq_refl).
Defined.

(** ** The hreflang mapping of an added path *)

Lemma hreflang_of_get (B : string) (L : list string) (p code : string) :
  dict_get code (hreflang_of B L p) =
  if decide (code ∈ L /\ code <> "__proto__")
  then Some (B +:+ "/" +:+ code +:+ "/" +:+ drop_slashes p)
  else None.
Proof.
  unfold hreflang_of. rewrite <- ltrim_slash.
  apply (hreflang_fold_get (fun code => B +:+ "/" +:+ code +:+ "/" +:+ ltrim p "/")).
Qed.

Lemma hreflang_of_entries (B : string) (L : list string) (p : string) :
  NoDup L ->
  Forall plain_code L ->
  JS.Object_entries (hreflang_of B L p) =
  map (fun code => (code, B +:+ "/" +:+ code +:+ "/" +:+ drop_slashes p)) L.
Proof.
  intros Hnd Hplain. unfold hreflang_of. rewrite <- ltrim_slash.
  rewrite (hreflang_fold_plain
             (fun code => B +:+ "/" +:+ code +:+ "/" +:+ ltrim p "/") L Hnd Hplain []).
  2:{ intros c _. cbn. apply not_elem_of_nil. }
  cbn [app]. apply entries_plain.
  apply Forall_map. cbn [fst].
  eapply Forall_impl; [exact Hplain|]. by intros c [Hc _].
Qed.

(** C2, as the code has it: with a non-empty list of locale codes L, [add]
    stores a fresh hreflang mapping, whatever the input carried, whose keys
    are the codes of L other than [__proto__] and whose value at such a
    code is the base URL, the code and the path without its leading
    slashes; there is no entry for a code that is not in L, and none for
    the code [__proto__], in L or not; when L repeats no code and has no
    code that is an array index or [__proto__], the mapping has exactly one
    entry per code of L, in the order of L.  With an empty L the hreflang
    of the input is kept. *)
Theorem add_hreflang (w : World) (this : addr) (s : SitemapFields)
    (rs : list SitemapPath) (arg : PathArg) (r : SitemapPath) :
  holds w this s rs ->
  arg_record w arg = Some r ->
  exists w' a r',
    Sitemap.add this arg w = Some (tt, w') /\
    holds w' this (push s a) (rs ++ [r']) /\
    (localeCodes s = [] -> hreflang r' = hreflang r) /\
    (localeCodes s <> [] ->
       exists h, hreflang r' = Some h /\
         forall code,
           (code ∈ localeCodes s -> code <> "__proto__" ->
            dict_get code h =
            Some (baseUrl s +:+ "/" +:+ code +:+ "/" +:+ drop_slashes (path r))) /\
           (code ∉ localeCodes s \/ code = "__proto__" -> dict_get code h = None)) /\
    (localeCodes s <> [] -> NoDup (localeCodes s) -> Forall plain_code (localeCodes s) ->
       hreflang_per_code (baseUrl s) (localeCodes s) (path r) r').
Proof.
  intros Hholds Harg.
  destruct (add_holds w this s rs arg r Hholds Harg) as (w' & a & Hadd & Hh & _).
  exists w', a, (normalized s r). split_and!; try done.
  - intros HL. cbn [normalized hreflang]. by rewrite HL.
  - intros HL. exists (hreflang_of (baseUrl s) (localeCodes s) (path r)). split.
    + cbn [normalized hreflang]. by destruct (localeCodes s).
    + intros code. rewrite hreflang_of_get. split.
      * intros Hin Hp. by rewrite decide_True.
      * intros Hout. rewrite decide_False; [done|]. intros [Hin Hp].
        destruct Hout as [Hout|Hout]; [exact (Hout Hin)|exact (Hp Hout)].
  - intros HL Hnd Hplain. exists (hreflang_of (baseUrl s) (localeCodes s) (path r)). split.
    + cbn [normalized hreflang]. by destruct (localeCodes s).
    + by apply hreflang_of_entries.
Qed.

Lemma plain_code_b_spec (code : string) : plain_code_b code = true -> plain_code code.
Proof.
  unfold plain_code_b, plain_code. destruct (JS.array_index code); [done|].
  destruct (String.eqb_spec code "__proto__"); [done|]. by intros _.
Qed.

Lemma add_hreflang_witness :
  (holds (example_world ["en"; "ar"]) 0%nat (example_fields ["en"; "ar"]) [] /\
   arg_record (example_world ["en"; "ar"]) (Str "/about") = Some (bare "/about") /\
   exists w' a r',
     Sitemap.add 0%nat (Str "/about") (example_world ["en"; "ar"]) = Some (tt, w') /\
     holds w' 0%nat (push (example_fields ["en"; "ar"]) a) ([] ++ [r']) /\
     hreflang_per_code "https://example.com" ["en"; "ar"] "/about" r') /\
  (holds (example_world ["en"; "__proto__"]) 0%nat (example_fields ["en"; "__proto__"]) [] /\
   arg_record (example_world ["en"; "__proto__"]) (Str "//about") = Some (bare "//about") /\
   exists w' a r' h,
     Sitemap.add 0%nat (Str "//about") (example_world ["en"; "__proto__"]) = Some (tt, w') /\
     holds w' 0%nat (push (example_fields ["en"; "__proto__"]) a) ([] ++ [r']) /\
     hreflang r' = Some h /\
     dict_get "en" h = Some "https://example.com/en/about" /\
     dict_get "__proto__" h = None /\
     dict_get "ar" h = None).
Proof.
  split.
  - assert (H : holds (example_world ["en"; "ar"]) 0%nat (example_fields ["en"; "ar"]) []).
    { split; [reflexivity|constructor]. }
    split; [exact H|]. split; [reflexivity|].
    destruct (add_hreflang (example_world ["en"; "ar"]) 0%nat (example_fields ["en"; "ar"]) []
                (Str "/about") (bare "/about") H eq_refl)
      as (w' & a & r' & Hadd & Hh & _ & _ & Hentries).
    exists w', a, r'. split; [exact Hadd|]. split; [exact Hh|].
    apply Hentries.
    + discriminate.
    + apply (bool_decide_unpack _). vm_compute. exact I.
    + repeat (constructor; [apply plain_code_b_spec; vm_compute; reflexivity|]). constructor.
  - assert (H : holds (example_world ["en"; "__proto__"]) 0%nat
                  (example_fields ["en"; "__proto__"]) []).
    { split; [reflexivity|constructor]. }
    split; [exact H|]. split; [reflexivity|].
    destruct (add_hreflang (example_world ["en"; "__proto__"]) 0%nat
                (example_fields ["en"; "__proto__"]) []
                (Str "//about") (bare "//about") H eq_refl)
      as (w' & a & r' & Hadd & Hh & _ & Hkeys & _).
    destruct Hkeys as (h & Hhref & Hget); [discriminate|].
    exists w', a, r', h. split; [exact Hadd|]. split; [exact Hh|]. split; [exact Hhref|].
    split; [|split].
    + apply (proj1 (Hget "en")); [|discriminate].
      apply (bool_decide_unpack _). vm_compute. exact I.
    + apply (proj2 (Hget "__proto__")). right. reflexivity.
    + apply (proj2 (Hget "ar")). left.
      apply (bool_decide_unpack _). vm_compute. exact I.
Defined.

(** The second testable property fails when a code is repeated: after
    [new Sitemap("https://example.com", ["en", "en"])] and [add("/about")]
    the mapping of the stored route has one entry, not one per code of the
    list. *)
Lemma hreflang_repeated_code :
  ~ (forall rs w',
       repeated_code_program empty_world = Some (rs, w') ->
       exists r', rs = [r'] /\
         hreflang_per_code "https://example.com" ["en"; "en"] "/about" r').
Proof.
  intros H.
  destruct (repeated_code_program empty_world) as [[rs w']|] eqn:E;
    vm_compute in E; [|discriminate].
  injection E as <- <-.
  destruct (H _ _ eq_refl) as (r' & [= <-] & h & [= <-] & Hentries).
  vm_compute in Hentries. discriminate.
Qed.

(** Why the order of L needs codes that are no array index, and why the
    code [__proto__] is set apart: the entries of the mapping stored for
    the lists ["en"; "1"] and ["__proto__"; "en"]. *)
Example hreflang_other_codes :
  JS.Object_entries (hreflang_of "https://example.com" ["en"; "1"] "/about") =
    [("1", "https://example.com/1/about"); ("en", "https://example.com/en/about")] /\
  JS.Object_entries (hreflang_of "https://example.com" ["__proto__"; "en"] "/about") =
    [("en", "https://example.com/en/about")].
Proof. split; vm_compute; reflexivity. Qed.

(** ** Locale codes are read when a path is added *)

(** C5: [setLocales] replaces the list of locale codes, and in
    [add(P1); setLocales(L2); add(P2)] the route stored for P1 keeps the
    hreflang computed from the list in force when it was added (it is the
    same record after the sequence as right after the first [add]), while
    the route for P2 has the hreflang computed from L2. *)
Theorem setLocales_only_future_adds (w : World) (this : addr) (s : SitemapFields)
    (rs : list SitemapPath) (arg1 arg2 : PathArg) (r1 r2 : SitemapPath)
    (L2 : list string) :
  holds w this s rs ->
  arg_record w arg1 = Some r1 ->
  arg_record w arg2 = Some r2 ->
  exists w1 w2 w3 a1 a2 r1' r2',
    Sitemap.add this arg1 w = Some (tt, w1) /\
    heap w1 !! a1 = Some (Route r1') /\
    Sitemap.setLocales this L2 w1 = Some (this, w2) /\
    heap w2 !! this = Some (Collection (with_locales (push s a1) L2)) /\
    Sitemap.add this arg2 w2 = Some (tt, w3) /\
    holds w3 this (push (with_locales (push s a1) L2) a2) (rs ++ [r1'; r2']) /\
    hreflang r1' =
      match localeCodes s with
      | [] => hreflang r1
      | _ :: _ => Some (hreflang_of (baseUrl s) (localeCodes s) (path r1))
      end /\
    hreflang r2' =
      match L2 with
      | [] => hreflang r2
      | _ :: _ => Some (hreflang_of (baseUrl s) L2 (path r2))
      end.
Proof.
  intros Hholds Harg1 Harg2.
  destruct (add_holds w this s rs arg1 r1 Hholds Harg1)
    as (w1 & a1 & Hadd1 & Hh1 & _ & Ha1 & _ & Hframe1).
  pose proof (setLocales_run this L2 w1 _ (proj1 Hh1)) as Hset.
  pose proof (holds_update w1 this _ (with_locales (push s a1) L2) _ Hh1 eq_refl) as Hh2.
  set (w2 := mkWorld (<[this := Collection (with_locales (push s a1) L2)]> (heap w1))
               (files w1)) in *.
  assert (Harg2' : arg_record w2 arg2 = Some r2).
  { apply (arg_record_frame w1 w2 this (push s a1)); [exact (proj1 Hh1)| |].
    - intros b o Hb Ho. subst w2. cbn [heap]. by rewrite list_lookup_insert_ne.
    - eapply (arg_record_frame w w1 this s); [exact (proj1 Hholds)|exact Hframe1|done]. }
  destruct (add_holds w2 this _ _ arg2 r2 Hh2 Harg2') as (w3 & a2 & Hadd2 & Hh3 & _).
  exists w1, w2, w3, a1, a2, (normalized s r1),
    (normalized (with_locales (push s a1) L2) r2).
  rewrite <- app_assoc in Hh3. cbn [app] in Hh3.
  split_and!; try done.
  exact (proj1 Hh2).
Qed.

Lemma setLocales_only_future_adds_witness :
  holds (example_world ["en"]) 0%nat (example_fields ["en"]) [] /\
  arg_record (example_world ["en"]) (Str "/") = Some (bare "/") /\
  arg_record (example_world ["en"]) (Str "/about") = Some (bare "/about") /\
  exists w1 w2 w3 a1 a2 r1' r2',
    Sitemap.add 0%nat (Str "/") (example_world ["en"]) = Some (tt, w1) /\
    heap w1 !! a1 = Some (Route r1') /\
    Sitemap.setLocales 0%nat ["fr"; "de"] w1 = Some (0%nat, w2) /\
    heap w2 !! 0%nat =
      Some (Collection (with_locales (push (example_fields ["en"]) a1) ["fr"; "de"])) /\
    Sitemap.add 0%nat (Str "/about") w2 = Some (tt, w3) /\
    holds w3 0%nat (push (with_locales (push (example_fields ["en"]) a1) ["fr"; "de"]) a2)
      ([] ++ [r1'; r2']) /\
    hreflang r1' = Some (hreflang_of "https://example.com" ["en"] "/") /\
    hreflang r2' = Some (hreflang_of "https://example.com" ["fr"; "de"] "/about").
Proof.
  assert (H : holds (example_world ["en"]) 0%nat (example_fields ["en"]) []).
  { split; [reflexivity|constructor]. }
  split; [exact H|]. split; [reflexivity|]. split; [reflexivity|].
  exact (setLocales_only_future_adds (example_world ["en"]) 0%nat
           (example_fields ["en"]) [] (Str "/") (Str "/about")
           (bare "/") (bare "/about") ["fr"; "de"] H eq_refl eq_refl).
Defined.

(** ** Rendering *)

Lemma holds_extend (w : World) (ext : list object) (f : list (string * string))
    (this : addr) (s : SitemapFields) (rs : list SitemapPath) :
  holds w this s rs -> holds (mkWorld (heap w ++ ext) f) this s rs.
Proof.
  intros [Hthis Hrs]. split; cbn [heap]; [by apply lookup_old|by apply points_to_app].
Qed.

Lemma held_extend (w : World) (ext : list object) (f : list (string * string))
    (g : addr) (urls : list addr) (rs : list SitemapPath) :
  held w g urls rs -> held (mkWorld (heap w ++ ext) f) g urls rs.
Proof.
  intros [Hg Hrs]. split; cbn [heap]; [by apply lookup_old|by apply points_to_app].
Qed.

Lemma generate_holds (w : World) (this : addr) (limit : option Z)
    (s : SitemapFields) (rs : list SitemapPath) :
  holds w this s rs ->
  exists w',
    Sitemap.generate this limit w = Some (urlset (selected limit rs), w') /\
    holds w' this s rs /\
    (exists ext, heap w' = heap w ++ ext) /\
    files w' = files w.
Proof.
  intros H. eexists. split.
  - rewrite <- urlset_fold. by apply generate_run.
  - split_and!; [by apply holds_extend|by eexists|done].
Qed.

Lemma generateSitemapsList_holds (w : World) (this : addr)
    (s : SitemapFields) (rs : list SitemapPath) :
  holds w this s rs ->
  exists w',
    Sitemap.generateSitemapsList this w = Some (sitemapindex (map path rs), w') /\
    holds w' this s rs /\
    (exists ext, heap w' = heap w ++ ext) /\
    files w' = files w.
Proof.
  intros H. eexists. split.
  - rewrite <- sitemapindex_fold. by apply generateSitemapsList_run.
  - split_and!; [by apply holds_extend|by eexists|done].
Qed.

(** C3, as the code has it: for a collection that holds n routes and a
    limit with 0 < limit < n, [generate(limit)] returns the document of
    exactly [limit] blocks, those of the first [limit] routes in insertion
    order; [generate()] without a limit, and [generate(0)], return all n
    blocks; the stored routes are the same after the call. *)
Theorem generate_limit (w : World) (this : addr) (s : SitemapFields)
    (rs : list SitemapPath) (limit : option Z) :
  holds w this s rs ->
  exists xml w',
    Sitemap.generate this limit w = Some (xml, w') /\
    holds w' this s rs /\
    (limit = None \/ limit = Some 0 -> xml = urlset rs) /\
    (forall l, limit = Some l -> 0 < l < Z.of_nat (length rs) ->
       first_blocks l rs xml /\ length (take (Z.to_nat l) rs) = Z.to_nat l).
Proof.
  intros H.
  destruct (generate_holds w this limit s rs H) as (w' & Hgen & Hh & _).
  exists (urlset (selected limit rs)), w'. split_and!; try done.
  - by intros [-> | ->].
  - intros l -> Hl. unfold first_blocks, selected, SiteMapGenerator.limit_truthy, JS.slice0.
    destruct l as [|l|l]; try lia.
    replace (Z.pos l <? 0) with false by (symmetry; apply Z.ltb_ge; lia).
    rewrite Z.min_l by lia. split; [done|].
    rewrite length_take. lia.
Qed.

Lemma generate_limit_witness :
  holds two_routes_world 0%nat two_routes_fields [home_route; about_route] /\
  exists xml w',
    Sitemap.generate 0%nat (Some 1) two_routes_world = Some (xml, w') /\
    holds w' 0%nat two_routes_fields [home_route; about_route] /\
    first_blocks 1 [home_route; about_route] xml /\
    length (take (Z.to_nat 1) [home_route; about_route]) = Z.to_nat 1.
Proof.
  assert (H : holds two_routes_world 0%nat two_routes_fields [home_route; about_route]).
  { split; [reflexivity|]. repeat (constructor; [reflexivity|]). constructor. }
  split; [exact H|].
  destruct (generate_limit two_routes_world 0%nat _ [home_route; about_route] (Some 1) H)
    as (xml & w' & Hgen & Hh & _ & Hlim).
  exists xml, w'. split; [exact Hgen|]. split; [exact Hh|].
  apply Hlim; [reflexivity|]. cbn. lia.
Defined.

(** The limit 0 is below the count of the one route that the collection
    holds after [add("/")], and [generate(0)] returns the block of that
    route, not a document of zero blocks. *)
Lemma generate_zero_limit :
  ~ (forall xml w',
       zero_limit_program empty_world = Some (xml, w') ->
       first_blocks 0 [home_route] xml).
Proof.
  intros H.
  destruct (zero_limit_program empty_world) as [[xml w']|] eqn:E;
    vm_compute in E; [|discriminate].
  injection E as <- <-.
  specialize (H _ _ eq_refl). vm_compute in H. discriminate.
Qed.

(** C7: for every collection, [generateSitemapsList] returns the
    [<sitemapindex>] document with one [<sitemap>] block per held route, in
    insertion order, whose [<loc>] is the stored path of the route; no other
    field of a route has a part in it; an empty collection gives the document
    without any block. *)
Theorem generateSitemapsList_blocks (w : World) (this : addr) (s : SitemapFields)
    (rs : list SitemapPath) :
  holds w this s rs ->
  exists xml w',
    Sitemap.generateSitemapsList this w = Some (xml, w') /\
    xml = sitemapindex_open +:+
          String.concat EmptyString (map (fun r => sitemap_block (path r)) rs) +:+
          sitemapindex_close /\
    (rs = [] -> xml = sitemapindex_open +:+ sitemapindex_close).
Proof.
  intros H.
  destruct (generateSitemapsList_holds w this s rs H) as (w' & Hgen & _).
  exists (sitemapindex (map path rs)), w'. split_and!; try done.
  - unfold sitemapindex. by rewrite map_map.
  - by intros ->.
Qed.

Lemma generateSitemapsList_blocks_witness :
  holds one_route_world 0%nat one_route_fields [home_route] /\
  exists xml w',
    Sitemap.generateSitemapsList 0%nat one_route_world = Some (xml, w') /\
    xml = sitemapindex_open +:+
          String.concat EmptyString (map (fun r => sitemap_block (path r)) [home_route]) +:+
          sitemapindex_close.
Proof.
  assert (H : holds one_route_world 0%nat one_route_fields [home_route]).
  { split; [reflexivity|]. constructor; [reflexivity|constructor]. }
  split; [exact H|].
  destruct (generateSitemapsList_blocks one_route_world 0%nat _ [home_route] H)
    as (xml & w' & Hgen & Hxml & _).
  by exists xml, w'.
Defined.

(** C8: both render operations of the serializer compute a function of the
    held list of routes ([urlset] of the selected routes, [sitemapindex] of
    the paths); they leave every object of the store as it was, the held
    list included, and the same call made again returns the same text. *)
Theorem render_pure (w : World) (g : addr) (urls : list addr)
    (rs : list SitemapPath) (limit : option Z) :
  held w g urls rs ->
  exists xml index w1 w2 w3 w4,
    SiteMapGenerator.generate g limit w = Some (xml, w1) /\
    SiteMapGenerator.generate g limit w1 = Some (xml, w2) /\
    SiteMapGenerator.generateSitemapsList g w2 = Some (index, w3) /\
    SiteMapGenerator.generateSitemapsList g w3 = Some (index, w4) /\
    xml = urlset (selected limit rs) /\
    index = sitemapindex (map path rs) /\
    held w1 g urls rs /\ held w4 g urls rs /\
    (exists ext, heap w4 = heap w ++ ext) /\
    files w4 = files w.
Proof.
  intros H.
  assert (G : forall w0, held w0 g urls rs ->
            SiteMapGenerator.generate g limit w0 =
            Some (urlset (selected limit rs),
                  mkWorld (heap w0 ++ map Route rs) (files w0))).
  { intros w0 [Hg Hrs]. rewrite <- urlset_fold. by apply (generator_generate_run g limit w0 urls rs). }
  assert (S : forall w0, held w0 g urls rs ->
            SiteMapGenerator.generateSitemapsList g w0 =
            Some (sitemapindex (map path rs),
                  mkWorld (heap w0 ++ map Route rs) (files w0))).
  { intros w0 [Hg Hrs]. rewrite <- sitemapindex_fold. by apply (generator_list_run g w0 urls rs). }
  pose proof (held_extend w (map Route rs) (files w) g urls rs H) as H1.
  pose proof (held_extend _ (map Route rs) (files w) g urls rs H1) as H2.
  pose proof (held_extend _ (map Route rs) (files w) g urls rs H2) as H3.
  pose proof (held_extend _ (map Route rs) (files w) g urls rs H3) as H4.
  cbn [heap] in *.
  eexists _, _, _, _, _, _.
  split; [exact (G _ H)|]. split; [exact (G _ H1)|].
  split; [exact (S _ H2)|]. split; [exact (S _ H3)|].
  split_and!; try done.
  cbn [heap]. rewrite <- !app_assoc. by eexists.
Qed.

Lemma render_pure_witness :
  held serializer_world 0%nat [1%nat; 2%nat] [home_route; about_route] /\
  exists xml index w1 w2 w3 w4,
    SiteMapGenerator.generate 0%nat (Some 1) serializer_world = Some (xml, w1) /\
    SiteMapGenerator.generate 0%nat (Some 1) w1 = Some (xml, w2) /\
    SiteMapGenerator.generateSitemapsList 0%nat w2 = Some (index, w3) /\
    SiteMapGenerator.generateSitemapsList 0%nat w3 = Some (index, w4) /\
    xml = urlset (selected (Some 1) [home_route; about_route]) /\
    index = sitemapindex (map path [home_route; about_route]) /\
    held w1 0%nat [1%nat; 2%nat] [home_route; about_route] /\
    held w4 0%nat [1%nat; 2%nat] [home_route; about_route] /\
    (exists ext, heap w4 = heap serializer_world ++ ext) /\
    files w4 = files serializer_world.
Proof.
  assert (H : held serializer_world 0%nat [1%nat; 2%nat] [home_route; about_route]).
  { split; [reflexivity|]. repeat (constructor; [reflexivity|]). constructor. }
  split; [exact H|].
  exact (render_pure serializer_world 0%nat _ _ (Some 1) H).
Defined.

(** ** Priority *)

Lemma priority_line_one (r : SitemapPath) :
  priority r = Some (JS.Int 1) ->
  priority_line r = "    <priority>1</priority>" +:+ JS.nl.
Proof. intros H. unfold priority_line. by rewrite H. Qed.

(** C4, as the code has it: for a route added with the priority 1, without
    a priority, or with a falsy priority such as an explicit 0, [add]
    stores the priority 1 and the [<url>] block that [generate] emits for
    the route has the line [<priority>1</priority>].  The serializer leaves
    the line out only for a record whose priority is absent or falsy. *)
Theorem added_priority_rendered (w : World) (this : addr) (s : SitemapFields)
    (rs : list SitemapPath) (arg : PathArg) (r : SitemapPath) :
  holds w this s rs ->
  arg_record w arg = Some r ->
  priority r = Some (JS.Int 1) \/ JS.truthy_number (priority r) = false ->
  (exists w1 a r' xml w2,
    Sitemap.add this arg w = Some (tt, w1) /\
    holds w1 this (push s a) (rs ++ [r']) /\
    priority r' = Some (JS.Int 1) /\
    Sitemap.generate this None w1 = Some (xml, w2) /\
    xml = urlset (rs ++ [r']) /\
    url_block r' =
      "  <url>" +:+ JS.nl +:+ "    <loc>" +:+ path r' +:+ "</loc>" +:+ JS.nl +:+
      lastmod_line r' +:+ changefreq_line r' +:+
      ("    <priority>1</priority>" +:+ JS.nl) +:+
      link_lines r' +:+ "  </url>" +:+ JS.nl) /\
  (forall r0, JS.truthy_number (priority r0) = false ->
     url_block r0 =
       "  <url>" +:+ JS.nl +:+ "    <loc>" +:+ path r0 +:+ "</loc>" +:+ JS.nl +:+
       lastmod_line r0 +:+ changefreq_line r0 +:+ link_lines r0 +:+ "  </url>" +:+ JS.nl).
Proof.
  intros Hholds Harg Hp. split.
  - destruct (add_holds w this s rs arg r Hholds Harg) as (w1 & a & Hadd & Hh & _).
    destruct (generate_holds w1 this None _ _ Hh) as (w2 & Hgen & _).
    assert (Hone : priority (normalized s r) = Some (JS.Int 1)).
    { cbn [normalized priority]. destruct Hp as [Hp|Hp]; rewrite Hp; [|done].
      reflexivity. }
    exists w1, a, (normalized s r), (urlset (rs ++ [normalized s r])), w2.
    split_and!; try done.
    unfold url_block. by rewrite (priority_line_one _ Hone).
  - intros r0 H0. unfold url_block, priority_line.
    destruct (priority r0) as [p|]; cbn [JS.truthy_number] in H0.
    + by rewrite H0.
    + done.
Qed.

Lemma added_priority_rendered_witness :
  holds zero_priority_world 0%nat (example_fields []) [] /\
  arg_record zero_priority_world (Ref 1%nat) = Some zero_priority_record /\
  exists w1 a r' xml w2,
    Sitemap.add 0%nat (Ref 1%nat) zero_priority_world = Some (tt, w1) /\
    holds w1 0%nat (push (example_fields []) a) ([] ++ [r']) /\
    priority r' = Some (JS.Int 1) /\
    Sitemap.generate 0%nat None w1 = Some (xml, w2) /\
    xml = urlset ([] ++ [r']).
Proof.
  assert (H : holds zero_priority_world 0%nat (example_fields []) []).
  { split; [reflexivity|constructor]. }
  split; [exact H|]. split; [reflexivity|].
  destruct (added_priority_rendered zero_priority_world 0%nat (example_fields []) []
              (Ref 1%nat) zero_priority_record H eq_refl (or_intror eq_refl))
    as [(w1 & a & r' & xml & w2 & Hadd & Hh & Hp & Hgen & Hxml & _) _].
  by exists w1, a, r', xml, w2.
Defined.

(** A route added with the priority 0 is rendered with a priority: the
    document of [add({ path: "/", priority: 0 })] has a [<priority>]
    element. *)
Lemma priority_zero_rendered :
  ~ (forall xml w',
       zero_priority_program empty_world = Some (xml, w') ->
       omits_priority xml).
Proof.
  intros H.
  destruct (zero_priority_program empty_world) as [[xml w']|] eqn:E;
    vm_compute in E; [|discriminate].
  injection E as <- <-.
  specialize (H _ _ eq_refl). vm_compute in H. discriminate.
Qed.

Example zero_priority_program_run :
  fst <$> zero_priority_program empty_world =
    Some (urlset [home_route]).
Proof. vm_compute. reflexivity. Qed.

(** ** Loops with an invariant, and what a call leaves untouched *)

Lemma for_of_invariant {A : Type} (I : list A -> World -> Prop) (l : list A)
    (body : A -> unit -> M unit) :
  (forall done x rest w, l = done ++ x :: rest -> I done w ->
     exists w', body x tt w = Some (tt, w') /\ I (done ++ [x]) w') ->
  forall w, I [] w ->
  exists w', for_of l body tt w = Some (tt, w') /\ I l w'.
Proof.
  intros Hbody.
  assert (G : forall rest done w, l = done ++ rest -> I done w ->
            exists w', for_of rest body tt w = Some (tt, w') /\ I l w').
  { induction rest as [|x rest IH]; intros done w Hl HI.
    - exists w. rewrite app_nil_r in Hl. subst. by split.
    - destruct (Hbody done x rest w Hl HI) as (w1 & Hrun & HI1).
      destruct (IH (done ++ [x]) w1) as (w2 & Hrest & HI2); [|done|].
      { by rewrite <- app_assoc. }
      exists w2. split; [|done]. cbn [for_of]. by erewrite bind_run. }
  intros w HI. by apply (G l [] w).
Qed.

Lemma keeps_prefix (h : list object) (w : World) :
  keeps h w -> exists ext, heap w = h ++ ext.
Proof.
  unfold keeps. generalize (heap w). clear w.
  induction h as [|o h IH]; intros l H; [by exists l|].
  destruct l as [|o' l].
  - specialize (H 0%nat o eq_refl). done.
  - pose proof (H 0%nat o eq_refl) as H0. cbn in H0. injection H0 as ->.
    destruct (IH l) as [ext ->].
    + intros b o' Hb. exact (H (S b) o' Hb).
    + by exists ext.
Qed.

Lemma keeps_extend (h : list object) (w : World) (ext : list object)
    (f : list (string * string)) :
  keeps h w -> keeps h (mkWorld (heap w ++ ext) f).
Proof. intros H b o Hb. cbn [heap]. apply lookup_old. by apply H. Qed.

Lemma keeps_frame (h : list object) (w w' : World) (c : addr) :
  h !! c = None ->
  (forall b o, b <> c -> heap w !! b = Some o -> heap w' !! b = Some o) ->
  keeps h w -> keeps h w'.
Proof.
  intros Hc Hframe H b o Hb. apply Hframe; [|by apply H].
  intros ->. congruence.
Qed.

Lemma holds_frame (w w' : World) (c this : addr) (sc s : SitemapFields)
    (rs : list SitemapPath) :
  heap w !! c = Some (Collection sc) ->
  this <> c ->
  (forall b o, b <> c -> heap w !! b = Some o -> heap w' !! b = Some o) ->
  holds w this s rs -> holds w' this s rs.
Proof.
  intros Hc Hne Hframe [Hthis Hrs]. split; [by apply Hframe|].
  eapply Forall2_impl; [exact Hrs|]. intros a r Ha. cbn beta in *.
  apply Hframe; [|done]. intros ->. congruence.
Qed.

Lemma new_run (B : string) (L : list string) (w : World) :
  Sitemap.new B L w =
  Some (length (heap w),
        mkWorld (heap w ++ [Collection (mkSitemap [] false (JS.Int 50000) true B L)])
          (files w)).
Proof. reflexivity. Qed.

Lemma holds_keeps (w w' : World) (this : addr) (s : SitemapFields)
    (rs : list SitemapPath) :
  holds w this s rs -> keeps (heap w) w' -> holds w' this s rs.
Proof.
  intros [Hthis Hrs] Hk. split; [by apply Hk|].
  eapply Forall2_impl; [exact Hrs|]. intros a r Ha. by apply Hk.
Qed.

Lemma keeps_fresh (h : list object) (w : World) :
  keeps h w -> h !! length (heap w) = None.
Proof.
  intros [ext Hext]%keeps_prefix. apply lookup_ge_None.
  rewrite Hext, length_app. lia.
Qed.

Lemma index_route_normalized (si : SitemapFields) (code : string) :
  localeCodes si = [] ->
  normalized si (bare ("/sitemap-" +:+ code +:+ ".xml")) = index_route (baseUrl si) code.
Proof.
  intros HL. unfold normalized, index_route, bare.
  cbn [path lastModified changeFrequency priority hreflang JS.truthy_number].
  rewrite HL, ltrim_slash. reflexivity.
Qed.

(** *** Inside [generateMultiLanguage] *)

Section MultiLanguage.

(** The store [h] and the files [f] when the call begins, the collection
    [this] that it is called on, and the place [idx] of the index
    collection that it creates. *)
Variables (h : list object) (f : list (string * string)).
Variables (this idx : addr) (s : SitemapFields) (rs : list SitemapPath).
Hypothesis this_collection : h !! this = Some (Collection s).
Hypothesis this_routes : points_to h (paths s) rs.
Hypothesis idx_fresh : h !! idx = None.

(** The inner loop, which adds every route of [this] to a child. *)
Lemma child_loop (child : addr) (si : SitemapFields) (rsi : list SitemapPath) :
  h !! child = None ->
  idx <> child ->
  forall w,
  keeps h w -> files w = f -> holds w idx si rsi ->
  (exists sc rsc, holds w child sc rsc) ->
  exists w',
    for_of (paths s) (fun r (_ : unit) => Sitemap.add child (Ref r)) tt w = Some (tt, w') /\
    keeps h w' /\ files w' = f /\ holds w' idx si rsi /\
    (exists sc rsc, holds w' child sc rsc).
Proof.
  intros Hchild Hne w Hk Hf Hidx Hc.
  destruct (for_of_invariant
    (fun _ w => keeps h w /\ files w = f /\ holds w idx si rsi /\
                exists sc rsc, holds w child sc rsc)
    (paths s) (fun r (_ : unit) => Sitemap.add child (Ref r))) with (w := w)
    as (w' & Hrun & HI); [|done|by exists w'].
  clear w Hk Hf Hidx Hc.
  intros done a rest w Hsplit (Hk & Hf & Hidx & sc & rsc & Hc).
  assert (Ha : exists r, h !! a = Some (Route r)).
  { assert (Hall : Forall (fun a => exists r, h !! a = Some (Route r)) (paths s)).
    { eapply Forall2_Forall_l; [exact this_routes|].
      apply Forall_true. intros r a' Ha'. by exists r. }
    rewrite Forall_forall in Hall. apply Hall. rewrite Hsplit.
    apply elem_of_app. right. left. }
  destruct Ha as [r Ha].
  assert (Harg : arg_record w (Ref a) = Some r).
  { cbn [arg_record]. by rewrite (Hk _ _ Ha). }
  destruct (add_holds w child sc rsc (Ref a) r Hc Harg)
    as (w' & a' & Hadd & Hc' & _ & _ & Hf' & Hframe).
  exists w'. split; [done|]. split_and!.
  - exact (keeps_frame h w w' child Hchild Hframe Hk).
  - congruence.
  - eapply holds_frame; [exact (proj1 Hc)|done|exact Hframe|done].
  - by eexists _, _.
Qed.

(** One turn of the loop over the locale codes. *)
Lemma language_turn (code : string) (w : World) (si : SitemapFields)
    (rsi : list SitemapPath) :
  keeps h w -> files w = f -> holds w idx si rsi -> localeCodes si = [] ->
  exists w' a,
    (b ← collection this;
     sitemap ← Sitemap.new (baseUrl b +:+ "/" +:+ code) [];
     s ← collection this;
     for_of (paths s) (fun r (_ : unit) => Sitemap.add sitemap (Ref r)) tt;;
     Sitemap.toXML sitemap;;
     Sitemap.add idx (Str ("/sitemap-" +:+ code +:+ ".xml"))) w = Some (tt, w') /\
    keeps h w' /\ files w' = f /\
    holds w' idx (push si a) (rsi ++ [index_route (baseUrl si) code]).
Proof.
  intros Hk Hf Hi HL.
  set (child := length (heap w)).
  set (sc0 := mkSitemap [] false (JS.Int 50000) true (baseUrl s +:+ "/" +:+ code) []).
  set (w1 := mkWorld (heap w ++ [Collection sc0]) (files w)).
  assert (Hchild : h !! child = None) by by apply keeps_fresh.
  assert (Hne : idx <> child).
  { intros ->. destruct Hi as [Hi _]. apply lookup_lt_Some in Hi. subst child. lia. }
  assert (Hk1 : keeps h w1) by by apply keeps_extend.
  assert (Hi1 : holds w1 idx si rsi) by by apply holds_extend.
  assert (Hc1 : exists sc rsc, holds w1 child sc rsc).
  { exists sc0, []. split; [apply lookup_last|constructor]. }
  destruct (child_loop child si rsi Hchild Hne w1 Hk1 Hf Hi1 Hc1)
    as (w2 & Hloop & Hk2 & Hf2 & Hi2 & sc & rsc & Hc2).
  pose proof (generate_run child None w2 sc rsc Hc2) as Hgen.
  set (w3 := mkWorld (heap w2 ++ Serializer (paths sc) :: map Route rsc) (files w2)) in *.
  assert (Hk3 : keeps h w3) by by apply keeps_extend.
  assert (Hi3 : holds w3 idx si rsi) by by apply holds_extend.
  destruct (add_holds w3 idx si rsi (Str ("/sitemap-" +:+ code +:+ ".xml")) _ Hi3 eq_refl)
    as (w4 & a & Hadd & Hi4 & _ & _ & Hf4 & Hframe).
  exists w4, a. split_and!.
  - run (apply collection_run; by apply Hk).
    run (apply new_run).
    run (apply collection_run; by apply Hk1).
    run (exact Hloop).
    run (exact Hgen).
    exact Hadd.
  - exact (keeps_frame h w3 w4 idx idx_fresh Hframe Hk3).
  - rewrite Hf4. exact Hf2.
  - by rewrite <- (index_route_normalized si code HL).
Qed.

End MultiLanguage.

Lemma generateMultiLanguage_run (w : World) (this : addr) (s : SitemapFields)
    (rs : list SitemapPath) :
  holds w this s rs ->
  exists w',
    Sitemap.generateMultiLanguage this w =
      Some (sitemapindex (map (fun code => baseUrl s +:+ "/" +:+ "sitemap-" +:+ code +:+ ".xml")
                            (localeCodes s)), w') /\
    keeps (heap w) w' /\
    files w' = files w.
Proof.
  intros [Hthis Hrs].
  set (idx := length (heap w)).
  set (si0 := mkSitemap [] false (JS.Int 50000) true (baseUrl s) []).
  set (w1 := mkWorld (heap w ++ [Collection si0]) (files w)).
  assert (Hidx : heap w !! idx = None) by by apply lookup_ge_None.
  destruct (for_of_invariant
    (fun done w' => keeps (heap w) w' /\ files w' = files w /\
       exists si, holds w' idx si (map (index_route (baseUrl s)) done) /\
                  baseUrl si = baseUrl s /\ localeCodes si = [])
    (localeCodes s)
    (fun localeCode (_ : unit) =>
       b ← collection this;
       sitemap ← Sitemap.new (baseUrl b +:+ "/" +:+ localeCode) [];
       s ← collection this;
       for_of (paths s) (fun r (_ : unit) => Sitemap.add sitemap (Ref r)) tt;;
       Sitemap.toXML sitemap;;
       Sitemap.add idx (Str ("/sitemap-" +:+ localeCode +:+ ".xml")))) with (w := w1)
    as (w2 & Hloop & Hk2 & Hf2 & si & Hi2 & HB & HL).
  - intros done code rest w' _ (Hk & Hf & si & Hi & HB & HL).
    destruct (language_turn (heap w) (files w) this idx s rs Hthis Hrs Hidx
                code w' si _ Hk Hf Hi HL) as (w'' & a & Hrun & Hk' & Hf' & Hi').
    exists w''. split; [exact Hrun|]. split_and!; try done.
    exists (push si a). rewrite map_app. cbn [map]. rewrite HB in Hi'. by split_and!.
  - split_and!.
    + subst w1. apply keeps_extend. by intros b o Hb.
    + done.
    + exists si0. split_and!; try done. split; [apply lookup_last|constructor].
  - destruct (generateSitemapsList_holds w2 idx si _ Hi2) as (w3 & Hlist & _ & [ext Hext] & Hf3).
    exists w3. split_and!.
    + unfold Sitemap.generateMultiLanguage.
      run (by apply collection_run).
      run (apply new_run).
      run (apply collection_run; cbn [heap]; by apply lookup_old).
      run (exact Hloop).
      rewrite map_map in Hlist. exact Hlist.
    + intros b o Hb. rewrite Hext. apply lookup_old. by apply Hk2.
    + congruence.
Qed.

(** ** Multi-language generation *)

(** C10: [generateMultiLanguage] returns, and leaves the collection it is
    called on as it was: the same fields (base URL, locale codes, stored
    references) and the same record behind every stored reference.  Every
    object that was in the store before the call is unchanged after it, so
    all that the call writes is in objects that it created. *)
Theorem generateMultiLanguage_frame (w : World) (this : addr) (s : SitemapFields)
    (rs : list SitemapPath) :
  holds w this s rs ->
  exists xml w',
    Sitemap.generateMultiLanguage this w = Some (xml, w') /\
    holds w' this s rs /\
    (exists created, heap w' = heap w ++ created).
Proof.
  intros H.
  destruct (generateMultiLanguage_run w this s rs H) as (w' & Hrun & Hk & _).
  eexists _, w'. split; [exact Hrun|]. split.
  - by eapply holds_keeps.
  - by apply keeps_prefix.
Qed.

Lemma generateMultiLanguage_frame_witness :
  holds multi_language_world 0%nat multi_language_fields multi_language_routes /\
  exists xml w',
    Sitemap.generateMultiLanguage 0%nat multi_language_world = Some (xml, w') /\
    holds w' 0%nat multi_language_fields multi_language_routes /\
    (exists created, heap w' = heap multi_language_world ++ created).
Proof.
  assert (H : holds multi_language_world 0%nat multi_language_fields
                multi_language_routes).
  { split; [reflexivity|]. repeat (constructor; [reflexivity|]). constructor. }
  split; [exact H|].
  exact (generateMultiLanguage_frame multi_language_world 0%nat _ _ H).
Defined.

(** C6, what the code does: for every collection, [generateMultiLanguage]
    returns the [<sitemapindex>] with one entry per locale code, in order,
    at the base URL followed by [/sitemap-<code>.xml] (an empty index for an
    empty list of codes), and hands no file to [putFile]: the document that
    it renders for each code is dropped. *)
Theorem generateMultiLanguage_index (w : World) (this : addr) (s : SitemapFields)
    (rs : list SitemapPath) :
  holds w this s rs ->
  exists xml w',
    Sitemap.generateMultiLanguage this w = Some (xml, w') /\
    xml = sitemapindex
            (map (fun code => baseUrl s +:+ "/" +:+ "sitemap-" +:+ code +:+ ".xml")
               (localeCodes s)) /\
    (localeCodes s = [] -> xml = sitemapindex_open +:+ sitemapindex_close) /\
    files w' = files w.
Proof.
  intros H.
  destruct (generateMultiLanguage_run w this s rs H) as (w' & Hrun & _ & Hf).
  eexists _, w'. split; [exact Hrun|]. split_and!; try done.
  by intros ->.
Qed.

Lemma generateMultiLanguage_index_witness :
  holds multi_language_world 0%nat multi_language_fields multi_language_routes /\
  exists xml w',
    Sitemap.generateMultiLanguage 0%nat multi_language_world = Some (xml, w') /\
    xml = sitemapindex ["https://example.com/sitemap-en.xml";
                        "https://example.com/sitemap-ar.xml"] /\
    files w' = [].
Proof.
  assert (H : holds multi_language_world 0%nat multi_language_fields
                multi_language_routes).
  { split; [reflexivity|]. repeat (constructor; [reflexivity|]). constructor. }
  split; [exact H|].
  destruct (generateMultiLanguage_index multi_language_world 0%nat _ _ H)
    as (xml & w' & Hrun & Hxml & _ & Hf).
  exists xml, w'. split; [exact Hrun|]. split; [exact Hxml|exact Hf].
Defined.

(** The program of the property run from an empty store: the index is
    returned and no file has been written. *)
Example multi_language_program_run :
  fst <$> multi_language_program empty_world =
    Some (sitemapindex ["https://example.com/sitemap-en.xml";
                        "https://example.com/sitemap-ar.xml"]) /\
  files ∘ snd <$> multi_language_program empty_world = Some [].
Proof. split; vm_compute; reflexivity. Qed.

(** The document rendered for the code en, which is dropped: the stored
    routes of the parent are absolute already, and the child puts its own
    base URL in front of them. *)
Example child_program_run :
  exists xml w',
    child_program empty_world = Some (xml, w') /\
    includes "<loc>https://example.com/en/https://example.com/about</loc>" xml = true /\
    includes "<loc>https://example.com/en/about</loc>" xml = false.
Proof.
  destruct (child_program empty_world) as [[xml w']|] eqn:E;
    vm_compute in E; [|discriminate].
  injection E as <- <-. eexists _, _. split; [reflexivity|]. split; vm_compute; reflexivity.
Qed.

(** The sibling path: [saveTo] hands the document to [putFile]. *)
Example saveTo_run :
  files ∘ snd <$> Sitemap.saveTo 0%nat "public/sitemap.xml" one_route_world =
  Some [("public/sitemap.xml", urlset [home_route])].
Proof. vm_compute. reflexivity. Qed.

(** ** The priority invariant *)

Lemma normalized_priority_set (s : SitemapFields) (r : SitemapPath) :
  priority_set (normalized s r).
Proof.
  unfold priority_set. cbn [normalized priority].
  by destruct (JS.truthy_number (priority r)) eqn:E.
Qed.

Lemma priority_set_line (r : SitemapPath) : priority_set r -> has_priority_line r.
Proof.
  unfold priority_set, has_priority_line, priority_line.
  destruct (priority r) as [p|]; cbn [JS.truthy_number]; [|done].
  intros ->. by exists p.
Qed.

(** The four configuration setters write one field of [this]. *)
Lemma setter_holds (f : SitemapFields -> SitemapFields) (w : World) (this : addr)
    (s : SitemapFields) (rs : list SitemapPath) :
  holds w this s rs ->
  (forall s0, paths (f s0) = paths s0) ->
  exists w',
    (s0 ← collection this; store this (Collection (f s0));; mret this) w =
      Some (this, w') /\
    holds w' this (f s) rs.
Proof.
  intros H Hf. eexists. split.
  - run (apply collection_run; exact (proj1 H)).
    run (eapply store_run; exact (proj1 H)). reflexivity.
  - exact (holds_update w this s (f s) rs H (Hf s)).
Qed.

Lemma perform_holds (w : World) (this : addr) (op : operation)
    (s : SitemapFields) (rs : list SitemapPath) :
  holds w this s rs ->
  callable w op ->
  exists w',
    perform this op w = Some (tt, w') /\
    match op with
    | Add arg =>
        exists a r,
          arg_record w arg = Some r /\ holds w' this (push s a) (rs ++ [normalized s r])
    | _ => holds w' this (configured op s) rs
    end.
Proof.
  intros H Hop. pose proof H as [Hthis Hrs].
  destruct op as [codes|flag|n|flag|arg| | |limit| | | |destination];
    cbn [perform callable configured] in *.
  - destruct (setter_holds (fun s0 => with_locales s0 codes) w this s rs H)
      as (w' & Hset & Hh); [done|].
    exists w'. split; [|exact Hh]. by run (exact Hset).
  - destruct (setter_holds
      (fun s0 => mkSitemap (paths s0) flag (_maxURLsPerSitemap s0) (_splitByLanguages s0)
                   (baseUrl s0) (localeCodes s0)) w this s rs H)
      as (w' & Hset & Hh); [done|].
    exists w'. split; [|exact Hh]. by run (exact Hset).
  - destruct (setter_holds
      (fun s0 => mkSitemap (paths s0) (_split s0) n (_splitByLanguages s0)
                   (baseUrl s0) (localeCodes s0)) w this s rs H)
      as (w' & Hset & Hh); [done|].
    exists w'. split; [|exact Hh]. by run (exact Hset).
  - destruct (setter_holds
      (fun s0 => mkSitemap (paths s0) (_split s0) (_maxURLsPerSitemap s0) flag
                   (baseUrl s0) (localeCodes s0)) w this s rs H)
      as (w' & Hset & Hh); [done|].
    exists w'. split; [|exact Hh]. by run (exact Hset).
  - destruct Hop as [r Harg].
    destruct (add_holds w this s rs arg r H Harg) as (w' & a & Hadd & Hh & _).
    exists w'. split; [exact Hadd|]. by exists a, r.
  - exists w. split; [|exact H]. unfold Sitemap.length.
    run (run (by apply collection_run); reflexivity). reflexivity.
  - exists w. split; [|exact H]. unfold Sitemap.Symbol_iterator.
    run (run (by apply collection_run); reflexivity). reflexivity.
  - destruct (generate_holds w this limit s rs H) as (w' & Hgen & Hh & _).
    exists w'. split; [|exact Hh]. by erewrite bind_run.
  - destruct (generateSitemapsList_holds w this s rs H) as (w' & Hgen & Hh & _).
    exists w'. split; [|exact Hh]. by erewrite bind_run.
  - destruct (generateMultiLanguage_run w this s rs H) as (w' & Hgen & Hk & _).
    exists w'. split; [by erewrite bind_run|by eapply holds_keeps].
  - destruct (generate_holds w this None s rs H) as (w' & Hgen & Hh & _).
    exists w'. split; [|exact Hh]. unfold Sitemap.toXML. by erewrite bind_run.
  - destruct (generate_holds w this None s rs H) as (w' & Hgen & Hh & _).
    exists (mkWorld (heap w') (files w' ++ [(destination, urlset (selected None rs))])).
    split; [|exact Hh]. unfold Sitemap.saveTo.
    run (run (exact Hgen); run (reflexivity); reflexivity). reflexivity.
Qed.

Lemma Forall_selected {A : Type} (P : A -> Prop) (limit : option Z) (l : list A) :
  Forall P l -> Forall P (selected limit l).
Proof.
  intros H. unfold selected. destruct limit as [e|]; [|done].
  destruct (SiteMapGenerator.limit_truthy (Some e)); [|done].
  unfold JS.slice0. by apply Forall_take.
Qed.

(** C9: a new collection holds no route, so it has the invariant that every
    stored route has a priority that is defined and not falsy.  Every
    operation of the class returns and keeps the invariant: [add] stores one
    more route behind the routes held, with the priority of the record given
    when that is not falsy and with the priority 1 when it is absent or
    falsy (an explicit 0 included); a setter writes its own field of the
    collection, and every other operation leaves the collection and its
    routes as they are.  Under the invariant, every [<url>] block that
    [generate] emits has a [<priority>] line. *)
Theorem priority_invariant :
  (forall B L w,
     exists this w',
       Sitemap.new B L w = Some (this, w') /\
       holds w' this (mkSitemap [] false (JS.Int 50000) true B L) [] /\
       priorities_set w' this) /\
  (forall w this s rs op,
     holds w this s rs -> Forall priority_set rs -> callable w op ->
     exists w',
       perform this op w = Some (tt, w') /\
       priorities_set w' this /\
       match op with
       | Add arg =>
           exists a r r',
             arg_record w arg = Some r /\
             holds w' this (push s a) (rs ++ [r']) /\
             (JS.truthy_number (priority r) = true -> priority r' = priority r) /\
             (JS.truthy_number (priority r) = false -> priority r' = Some (JS.Int 1))
       | _ => holds w' this (configured op s) rs
       end) /\
  (forall w this limit,
     priorities_set w this ->
     exists s rs xml w',
       holds w this s rs /\
       Sitemap.generate this limit w = Some (xml, w') /\
       xml = urlset (selected limit rs) /\
       Forall has_priority_line (selected limit rs)).
Proof.
  split_and!.
  - intros B L w. eexists _, _. split; [apply new_run|].
    assert (H : holds (mkWorld (heap w ++ [Collection (mkSitemap [] false (JS.Int 50000) true B L)])
                         (files w))
                  (length (heap w)) (mkSitemap [] false (JS.Int 50000) true B L) []).
    { split; [apply lookup_last|constructor]. }
    split; [exact H|]. eexists _, []. split; [exact H|constructor].
  - intros w this s rs op H Hp Hop.
    destruct (perform_holds w this op s rs H Hop) as (w' & Hrun & Hafter).
    exists w'. split; [exact Hrun|].
    destruct op as [codes|flag|n|flag|arg| | |limit| | | |destination];
      try (split; [eexists _, rs; split; [exact Hafter|exact Hp]|exact Hafter]).
    destruct Hafter as (a & r & Harg & Hh). split.
    + exists (push s a), (rs ++ [normalized s r]). split; [exact Hh|].
      apply Forall_app. split; [exact Hp|]. constructor; [|constructor].
      apply normalized_priority_set.
    + exists a, r, (normalized s r). split; [exact Harg|]. split; [exact Hh|].
      cbn [normalized priority]. split; intros ->; reflexivity.
  - intros w this limit (s & rs & H & Hp).
    destruct (generate_holds w this limit s rs H) as (w' & Hgen & _).
    exists s, rs, (urlset (selected limit rs)), w'. split_and!; try done.
    apply Forall_selected. eapply Forall_impl; [exact Hp|]. apply priority_set_line.
Qed.

Lemma priority_invariant_witness :
  holds zero_priority_world 0%nat (example_fields []) [] /\
  Forall priority_set [] /\
  callable zero_priority_world (Add (Ref 1%nat)) /\
  exists w' a r',
    perform 0%nat (Add (Ref 1%nat)) zero_priority_world = Some (tt, w') /\
    priorities_set w' 0%nat /\
    holds w' 0%nat (push (example_fields []) a) ([] ++ [r']) /\
    priority zero_priority_record = Some (JS.Int 0) /\
    priority r' = Some (JS.Int 1).
Proof.
  assert (H : holds zero_priority_world 0%nat (example_fields []) []).
  { split; [reflexivity|constructor]. }
  assert (C : callable zero_priority_world (Add (Ref 1%nat))).
  { eexists. reflexivity. }
  split; [exact H|]. split; [constructor|]. split; [exact C|].
  destruct (proj1 (proj2 priority_invariant) zero_priority_world 0%nat (example_fields []) []
              (Add (Ref 1%nat)) H (List.Forall_nil _) C)
    as (w' & Hrun & Hset & a & r & r' & Harg & Hh & _ & Hfalsy).
  exists w', a, r'. split; [exact Hrun|]. split; [exact Hset|]. split; [exact Hh|].
  split; [reflexivity|].
  injection Harg as <-. apply Hfalsy. reflexivity.
Defined.

(** * Further properties of the code *)

(** ** A new collection *)

(** X11: a collection made by the constructor, whatever the base URL and
    the locale codes, is a new object beside the unchanged old ones; it
    holds no route: its [length] is 0, [generate] returns the [<urlset>]
    without any block for every limit, and [generateSitemapsList] the
    [<sitemapindex>] without any block. *)
Theorem new_collection_empty (B : string) (L : list string) (w : World)
    (limit : option Z) :
  exists this w1 w2 w3,
    Sitemap.new B L w = Some (this, w1) /\
    heap w !! this = None /\
    heap w1 = heap w ++ [Collection (mkSitemap [] false (JS.Int 50000) true B L)] /\
    Sitemap.length this w1 = Some (0%nat, w1) /\
    Sitemap.generate this limit w1 = Some (urlset_open +:+ urlset_close, w2) /\
    Sitemap.generateSitemapsList this w1 =
      Some (sitemapindex_open +:+ sitemapindex_close, w3).
Proof.
  set (s0 := mkSitemap [] false (JS.Int 50000) true B L).
  set (w1 := mkWorld (heap w ++ [Collection s0]) (files w)).
  assert (H : holds w1 (length (heap w)) s0 []).
  { split; [apply lookup_last|constructor]. }
  destruct (generate_holds w1 _ limit s0 [] H) as (w2 & Hgen & _).
  destruct (generateSitemapsList_holds w1 _ s0 [] H) as (w3 & Hlist & _).
  exists (length (heap w)), w1, w2, w3. split_and!.
  - apply new_run.
  - by apply lookup_ge_None.
  - done.
  - unfold Sitemap.length. run (apply collection_run; exact (proj1 H)). done.
  - rewrite Hgen. replace (selected limit []) with (@nil SitemapPath); [reflexivity|].
    unfold selected, JS.slice0. destruct limit as [e|]; [|reflexivity].
    destruct (SiteMapGenerator.limit_truthy (Some e)); [|reflexivity].
    by rewrite take_nil.
  - exact Hlist.
Qed.

(** ** A priority of its own through [add] *)

(** X9: a priority that is not falsy goes through [add] as it is, whatever
    its value (there is no check of a range), and [generate] prints it as
    the host prints a number: the block of the route has the line with
    the text of that very number. *)
Theorem add_keeps_priority (w : World) (this : addr) (s : SitemapFields)
    (rs : list SitemapPath) (arg : PathArg) (r : SitemapPath) (p : JS.number) :
  holds w this s rs ->
  arg_record w arg = Some r ->
  priority r = Some p ->
  JS.number_truthy p = true ->
  exists w1 a r' xml w2,
    Sitemap.add this arg w = Some (tt, w1) /\
    holds w1 this (push s a) (rs ++ [r']) /\
    priority r' = Some p /\
    Sitemap.generate this None w1 = Some (xml, w2) /\
    xml = urlset (rs ++ [r']) /\
    priority_line r' =
      "    <priority>" +:+ JS.Number_toString p +:+ "</priority>" +:+ JS.nl.
Proof.
  intros H Harg Hp Ht.
  destruct (add_holds w this s rs arg r H Harg) as (w1 & a & Hadd & Hh & _).
  destruct (generate_holds w1 this None _ _ Hh) as (w2 & Hgen & _).
  assert (Hkeep : priority (normalized s r) = Some p).
  { cbn [normalized priority]. rewrite Hp. cbn [JS.truthy_number]. by rewrite Ht. }
  exists w1, a, (normalized s r), (urlset (rs ++ [normalized s r])), w2.
  split_and!; try done.
  unfold priority_line. rewrite Hkeep. by rewrite Ht.
Qed.

Lemma add_keeps_priority_witness :
  holds priced_world 0%nat (example_fields []) [] /\
  arg_record priced_world (Ref 1%nat) = Some priced_record /\
  priority priced_record = Some (JS.Decimal 8 (-1)) /\
  JS.number_truthy (JS.Decimal 8 (-1)) = true /\
  exists w1 a r' xml w2,
    Sitemap.add 0%nat (Ref 1%nat) priced_world = Some (tt, w1) /\
    holds w1 0%nat (push (example_fields []) a) ([] ++ [r']) /\
    priority r' = Some (JS.Decimal 8 (-1)) /\
    Sitemap.generate 0%nat None w1 = Some (xml, w2) /\
    xml = urlset ([] ++ [r']) /\
    priority_line r' = "    <priority>0.8</priority>" +:+ JS.nl.
Proof.
  assert (H : holds priced_world 0%nat (example_fields []) []).
  { split; [reflexivity|constructor]. }
  split; [exact H|]. split; [reflexivity|]. split; [reflexivity|]. split; [reflexivity|].
  exact (add_keeps_priority priced_world 0%nat (example_fields []) [] (Ref 1%nat)
           priced_record (JS.Decimal 8 (-1)) H eq_refl eq_refl eq_refl).
Defined.

(** ** Sequences of [add] *)

Lemma normalized_same (s s' : SitemapFields) (r : SitemapPath) :
  baseUrl s' = baseUrl s -> localeCodes s' = localeCodes s ->
  normalized s' r = normalized s r.
Proof. intros HB HL. unfold normalized. by rewrite HB, HL. Qed.

(** X2: a sequence of [add] calls appends, in call order, one route per
    call (the record that [parsePath] builds from the argument) behind the
    routes already held: nothing is merged, dropped or reordered, the base
    URL and the locale codes stay, and [length] is the number of routes held
    before plus the number of calls. *)
Theorem add_sequence (this : addr) (args : list PathArg) :
  forall (recs : list SitemapPath) (w : World) (s : SitemapFields)
         (rs : list SitemapPath),
  holds w this s rs ->
  Forall2 (fun arg r => arg_record w arg = Some r) args recs ->
  exists w' s',
    add_all this args w = Some (tt, w') /\
    holds w' this s' (rs ++ map (normalized s) recs) /\
    baseUrl s' = baseUrl s /\
    localeCodes s' = localeCodes s /\
    files w' = files w /\
    Sitemap.length this w' = Some ((length rs + length args)%nat, w').
Proof.
  unfold add_all. induction args as [|arg args IH]; intros recs w s rs H Hargs.
  - apply Forall2_nil_inv_l in Hargs as ->. exists w, s.
    cbn [map for_of]. rewrite app_nil_r. split_and!; try done.
    unfold Sitemap.length. run (apply collection_run; exact (proj1 H)).
    cbn [length]. rewrite Nat.add_0_r.
    by rewrite (Forall2_length _ _ _ (proj2 H)).
  - apply Forall2_cons_inv_l in Hargs as (r & recs' & Hr & Hrest & ->).
    destruct (add_holds w this s rs arg r H Hr)
      as (w1 & a & Hadd & Hh & _ & _ & Hf & Hframe).
    assert (Hrest1 : Forall2 (fun arg r => arg_record w1 arg = Some r) args recs').
    { eapply Forall2_impl; [exact Hrest|]. intros arg' r' Harg'. cbn beta in *.
      by apply (arg_record_frame w w1 this s arg' r' (proj1 H) Hframe). }
    destruct (IH recs' w1 (push s a) _ Hh Hrest1)
      as (w' & s' & Hrun & Hh' & HB & HL & Hf' & Hlen).
    exists w', s'. split_and!.
    + cbn [for_of]. by run (exact Hadd).
    + rewrite <- app_assoc in Hh'. cbn [app map] in *.
      by rewrite (map_ext (normalized (push s a)) (normalized s)
                    (fun r0 => normalized_same s (push s a) r0 eq_refl eq_refl)) in Hh'.
    + exact HB.
    + exact HL.
    + congruence.
    + rewrite Hlen. f_equal. f_equal. rewrite length_app. cbn [length]. lia.
Qed.

Lemma add_sequence_witness :
  holds (example_world []) 0%nat (example_fields []) [] /\
  Forall2 (fun arg r => arg_record (example_world []) arg = Some r)
    [Str "/about"; Str "/about"] [bare "/about"; bare "/about"] /\
  exists w' s',
    add_all 0%nat [Str "/about"; Str "/about"] (example_world []) = Some (tt, w') /\
    holds w' 0%nat s'
      ([] ++ map (normalized (example_fields [])) [bare "/about"; bare "/about"]) /\
    baseUrl s' = baseUrl (example_fields []) /\
    localeCodes s' = localeCodes (example_fields []) /\
    files w' = files (example_world []) /\
    Sitemap.length 0%nat w' = Some ((length (@nil SitemapPath) + 2)%nat, w').
Proof.
  assert (H : holds (example_world []) 0%nat (example_fields []) []).
  { split; [reflexivity|constructor]. }
  assert (A : Forall2 (fun arg r => arg_record (example_world []) arg = Some r)
                [Str "/about"; Str "/about"] [bare "/about"; bare "/about"]).
  { repeat (constructor; [reflexivity|]). constructor. }
  split; [exact H|]. split; [exact A|].
  exact (add_sequence 0%nat [Str "/about"; Str "/about"] _ _ _ _ H A).
Defined.

(** ** Saving *)

(** X1: [saveTo] hands exactly one file to [putFile], after the files
    written before: its destination is the argument and its content is the
    [<urlset>] document of all held routes, the text that [generate()] and
    [toXML()] return.  It returns [this], and the collection and its routes
    are as before. *)
Theorem saveTo_writes_document (w : World) (this : addr) (s : SitemapFields)
    (rs : list SitemapPath) (destination : string) :
  holds w this s rs ->
  exists xml w0 w',
    Sitemap.generate this None w = Some (xml, w0) /\
    Sitemap.toXML this w = Some (xml, w0) /\
    Sitemap.saveTo this destination w = Some (this, w') /\
    files w' = files w ++ [(destination, xml)] /\
    xml = urlset rs /\
    holds w' this s rs.
Proof.
  intros H.
  destruct (generate_holds w this None s rs H) as (w0 & Hgen & Hh & _ & Hf).
  exists (urlset rs), w0,
    (mkWorld (heap w0) (files w0 ++ [(destination, urlset rs)])).
  split_and!; try done.
  - unfold Sitemap.saveTo. run (exact Hgen). run (reflexivity). reflexivity.
  - cbn [files]. by rewrite Hf.
Qed.

Lemma saveTo_writes_document_witness :
  holds two_routes_world 0%nat two_routes_fields [home_route; about_route] /\
  exists xml w0 w',
    Sitemap.generate 0%nat None two_routes_world = Some (xml, w0) /\
    Sitemap.toXML 0%nat two_routes_world = Some (xml, w0) /\
    Sitemap.saveTo 0%nat "public/sitemap.xml" two_routes_world = Some (0%nat, w') /\
    files w' = files two_routes_world ++ [("public/sitemap.xml", xml)] /\
    xml = urlset [home_route; about_route] /\
    holds w' 0%nat two_routes_fields [home_route; about_route].
Proof.
  assert (H : holds two_routes_world 0%nat two_routes_fields [home_route; about_route]).
  { split; [reflexivity|]. repeat (constructor; [reflexivity|]). constructor. }
  split; [exact H|].
  exact (saveTo_writes_document two_routes_world 0%nat _ _ "public/sitemap.xml" H).
Defined.

(** ** The limit of [generate] at its bounds *)

(** X8: a limit that is not below the number of held routes leaves the
    document whole, and a negative limit counts from the end, as [slice]
    does: [generate(-k)] leaves out the last k routes, and all of them when
    k is not below their number. *)
Theorem generate_limit_bounds (w : World) (this : addr) (s : SitemapFields)
    (rs : list SitemapPath) (l : Z) :
  holds w this s rs ->
  exists xml w',
    Sitemap.generate this (Some l) w = Some (xml, w') /\
    (Z.of_nat (length rs) <= l -> xml = urlset rs) /\
    (l < 0 -> xml = urlset (take (length rs - Z.to_nat (- l)) rs)).
Proof.
  intros H.
  destruct (generate_holds w this (Some l) s rs H) as (w' & Hgen & _).
  exists (urlset (selected (Some l) rs)), w'. split_and!; [done| |].
  - intros Hl. f_equal. unfold selected, SiteMapGenerator.limit_truthy, JS.slice0.
    destruct l as [|p|p]; [done| |lia].
    replace (Z.pos p <? 0) with false by (symmetry; apply Z.ltb_ge; lia).
    apply take_ge. lia.
  - intros Hl. f_equal. unfold selected, SiteMapGenerator.limit_truthy, JS.slice0.
    destruct l as [|p|p]; [lia|lia|].
    replace (Z.neg p <? 0) with true by (symmetry; apply Z.ltb_lt; lia).
    f_equal. lia.
Qed.

Lemma generate_limit_bounds_witness :
  holds two_routes_world 0%nat two_routes_fields [home_route; about_route] /\
  exists xml w',
    Sitemap.generate 0%nat (Some (-1)) two_routes_world = Some (xml, w') /\
    xml = urlset (take (length [home_route; about_route] - Z.to_nat (- -1))
                    [home_route; about_route]).
Proof.
  assert (H : holds two_routes_world 0%nat two_routes_fields [home_route; about_route]).
  { split; [reflexivity|]. repeat (constructor; [reflexivity|]). constructor. }
  split; [exact H|].
  destruct (generate_limit_bounds two_routes_world 0%nat _ _ (-1) H)
    as (xml & w' & Hgen & _ & Hneg).
  exists xml, w'. split; [exact Hgen|]. apply Hneg. lia.
Defined.

(** ** The configuration setters *)




(** X4: [generateMultiLanguage] reads the locale codes when it is called:
    after [setLocales(L2)] the index that it returns has one entry per code
    of L2, whatever the codes were when the routes were added, and the
    stored routes are as before. *)
Theorem generateMultiLanguage_current_locales (w : World) (this : addr)
    (s : SitemapFields) (rs : list SitemapPath) (L2 : list string) :
  holds w this s rs ->
  exists w1 xml w2,
    Sitemap.setLocales this L2 w = Some (this, w1) /\
    Sitemap.generateMultiLanguage this w1 = Some (xml, w2) /\
    xml = sitemapindex
            (map (fun code => baseUrl s +:+ "/" +:+ "sitemap-" +:+ code +:+ ".xml") L2) /\
    holds w2 this (with_locales s L2) rs.
Proof.
  intros H.
  destruct (setter_holds (fun s0 => with_locales s0 L2) w this s rs H (fun _ => eq_refl))
    as (w1 & Hset & Hh).
  destruct (generateMultiLanguage_run w1 this _ rs Hh) as (w2 & Hrun & Hk & _).
  eexists w1, _, w2. split_and!; [exact Hset|exact Hrun|reflexivity|].
  exact (holds_keeps w1 w2 this _ rs Hh Hk).
Qed.

Lemma generateMultiLanguage_current_locales_witness :
  holds multi_language_world 0%nat multi_language_fields multi_language_routes /\
  exists w1 xml w2,
    Sitemap.setLocales 0%nat ["fr"] multi_language_world = Some (0%nat, w1) /\
    Sitemap.generateMultiLanguage 0%nat w1 = Some (xml, w2) /\
    xml = sitemapindex
            (map (fun code => baseUrl multi_language_fields +:+ "/" +:+ "sitemap-" +:+
                              code +:+ ".xml") ["fr"]) /\
    holds w2 0%nat (with_locales multi_language_fields ["fr"]) multi_language_routes.
Proof.
  assert (H : holds multi_language_world 0%nat multi_language_fields
                multi_language_routes).
  { split; [reflexivity|]. repeat (constructor; [reflexivity|]). constructor. }
  split; [exact H|].
  exact (generateMultiLanguage_current_locales multi_language_world 0%nat _ _ ["fr"] H).
Defined.

(** ** Iteration *)

(** X5: the iterator of a collection yields the stored route objects
    themselves, in insertion order, and not copies: a caller that writes to
    the object yielded at position [i] changes the route that the
    collection holds there, and the next [generate] renders what was
    written. *)
Theorem iterator_yields_stored_objects (w : World) (this : addr) (s : SitemapFields)
    (rs : list SitemapPath) (i : nat) (a : addr) (r2 : SitemapPath) :
  holds w this s rs ->
  NoDup (paths s) ->
  paths s !! i = Some a ->
  exists w1 w2,
    Sitemap.Symbol_iterator this w = Some (paths s, w) /\
    store a (Route r2) w = Some (tt, w1) /\
    holds w1 this s (<[i := r2]> rs) /\
    Sitemap.generate this None w1 = Some (urlset (<[i := r2]> rs), w2).
Proof.
  intros H Hnd Hi. pose proof H as [Hthis Hrs].
  destruct (Forall2_lookup_l _ _ _ _ _ Hrs Hi) as (r & Hr & Ha).
  set (w1 := mkWorld (<[a := Route r2]> (heap w)) (files w)).
  assert (Hh : holds w1 this s (<[i := r2]> rs)).
  { split; unfold w1; cbn [heap].
    - rewrite list_lookup_insert_ne; [done|]. intros <-. congruence.
    - apply Forall2_same_length_lookup. split.
      + rewrite length_insert. by eapply Forall2_length.
      + intros j a' r' Ha' Hr'. destruct (decide (j = i)) as [->|Hne].
        * rewrite Hi in Ha'. injection Ha' as <-.
          rewrite list_lookup_insert_eq in Hr' by by eapply lookup_lt_Some.
          injection Hr' as <-.
          apply list_lookup_insert_eq. by eapply lookup_lt_Some.
        * rewrite list_lookup_insert_ne in Hr' by done.
          rewrite list_lookup_insert_ne.
          -- by eapply (Forall2_lookup_lr _ _ _ _ _ _ Hrs).
          -- intros <-. apply Hne. by eapply NoDup_lookup. }
  destruct (generate_holds w1 this None s _ Hh) as (w2 & Hgen & _).
  exists w1, w2. split_and!; try done.
  - unfold Sitemap.Symbol_iterator. by run (by apply collection_run).
  - by eapply store_run.
Qed.

Lemma iterator_yields_stored_objects_witness :
  holds two_routes_world 0%nat two_routes_fields [home_route; about_route] /\
  NoDup (paths two_routes_fields) /\
  paths two_routes_fields !! 1%nat = Some 4%nat /\
  exists w1 w2,
    Sitemap.Symbol_iterator 0%nat two_routes_world =
      Some (paths two_routes_fields, two_routes_world) /\
    store 4%nat (Route zero_priority_record) two_routes_world = Some (tt, w1) /\
    holds w1 0%nat two_routes_fields (<[1%nat := zero_priority_record]>
                                        [home_route; about_route]) /\
    Sitemap.generate 0%nat None w1 =
      Some (urlset (<[1%nat := zero_priority_record]> [home_route; about_route]), w2).
Proof.
  assert (H : holds two_routes_world 0%nat two_routes_fields [home_route; about_route]).
  { split; [reflexivity|]. repeat (constructor; [reflexivity|]). constructor. }
  assert (N : NoDup (paths two_routes_fields)).
  { apply (bool_decide_unpack _). vm_compute. exact I. }
  split; [exact H|]. split; [exact N|]. split; [reflexivity|].
  exact (iterator_yields_stored_objects two_routes_world 0%nat _ _ 1%nat 4%nat
           zero_priority_record H N eq_refl).
Defined.

(** ** Adding a stored route again *)

Lemma drop_slashes_proper (B rest : string) :
  proper_base B -> drop_slashes (B +:+ rest) = B +:+ rest.
Proof.
  destruct B as [|c B]; [done|]. cbn [proper_base]. intros Hc.
  rewrite str_app_cons. cbn [drop_slashes].
  by destruct (Ascii.eqb_spec c "/").
Qed.

(** X6: normalization is not idempotent.  With a base URL that is not
    empty and does not begin with a slash, [add] of a route that the
    collection has stored (as [generateMultiLanguage] does with the routes
    of the parent) stores a second route whose path is the base URL, a
    slash, and the whole path of the first, base URL included. *)
Theorem add_stored_route_again (w : World) (this : addr) (s : SitemapFields)
    (rs : list SitemapPath) (arg : PathArg) (r : SitemapPath) :
  holds w this s rs ->
  arg_record w arg = Some r ->
  proper_base (baseUrl s) ->
  exists w1 a1 r1 w2 a2 r2,
    Sitemap.add this arg w = Some (tt, w1) /\
    holds w1 this (push s a1) (rs ++ [r1]) /\
    Sitemap.add this (Ref a1) w1 = Some (tt, w2) /\
    holds w2 this (push (push s a1) a2) (rs ++ [r1; r2]) /\
    path r1 = baseUrl s +:+ "/" +:+ drop_slashes (path r) /\
    path r2 = baseUrl s +:+ "/" +:+ baseUrl s +:+ "/" +:+ drop_slashes (path r).
Proof.
  intros H Harg HB.
  destruct (add_holds w this s rs arg r H Harg)
    as (w1 & a1 & Hadd1 & Hh1 & _ & Ha1 & _).
  assert (Harg1 : arg_record w1 (Ref a1) = Some (normalized s r)).
  { cbn [arg_record]. by rewrite Ha1. }
  destruct (add_holds w1 this _ _ (Ref a1) _ Hh1 Harg1) as (w2 & a2 & Hadd2 & Hh2 & _).
  rewrite <- app_assoc in Hh2. cbn [app] in Hh2.
  exists w1, a1, (normalized s r), w2, a2, (normalized (push s a1) (normalized s r)).
  split_and!; try done.
  - cbn [normalized path]. by rewrite ltrim_slash.
  - cbn [normalized path push baseUrl]. rewrite !ltrim_slash.
    by rewrite drop_slashes_proper.
Qed.

Lemma add_stored_route_again_witness :
  holds (example_world []) 0%nat (example_fields []) [] /\
  arg_record (example_world []) (Str "/about") = Some (bare "/about") /\
  proper_base (baseUrl (example_fields [])) /\
  exists w1 a1 r1 w2 a2 r2,
    Sitemap.add 0%nat (Str "/about") (example_world []) = Some (tt, w1) /\
    holds w1 0%nat (push (example_fields []) a1) ([] ++ [r1]) /\
    Sitemap.add 0%nat (Ref a1) w1 = Some (tt, w2) /\
    holds w2 0%nat (push (push (example_fields []) a1) a2) ([] ++ [r1; r2]) /\
    path r1 = baseUrl (example_fields []) +:+ "/" +:+ drop_slashes (path (bare "/about")) /\
    path r2 = baseUrl (example_fields []) +:+ "/" +:+ baseUrl (example_fields []) +:+
              "/" +:+ drop_slashes (path (bare "/about")).
Proof.
  assert (H : holds (example_world []) 0%nat (example_fields []) []).
  { split; [reflexivity|constructor]. }
  assert (P : proper_base (baseUrl (example_fields []))).
  { cbn. discriminate. }
  split; [exact H|]. split; [reflexivity|]. split; [exact P|].
  exact (add_stored_route_again (example_world []) 0%nat _ _ (Str "/about")
           (bare "/about") H eq_refl P).
Defined.

(** ** The serializer collects routes *)

Lemma generator_add_at (g : addr) (urls : list addr) :
  forall (w : World) (l : list addr),
  heap w !! g = Some (Serializer l) ->
  SiteMapGenerator.add g urls w =
  Some (g, mkWorld (<[g := Serializer (l ++ urls)]> (heap w)) (files w)).
Proof.
  intros w l Hg. unfold SiteMapGenerator.add.
  erewrite (bind_run _ _ _
    (mkWorld (<[g := Serializer (l ++ urls)]> (heap w)) (files w)) tt); [done|].
  revert w l Hg. induction urls as [|u urls IH]; intros w l Hg.
  - cbn [for_of]. rewrite app_nil_r, list_insert_id by done. by destruct w.
  - cbn [for_of]. erewrite bind_run.
    2:{ run (by apply serializer_run). by eapply store_run. }
    rewrite (IH _ (l ++ [u])); cbn [heap files].
    + by rewrite list_insert_insert_eq, <- app_assoc.
    + apply list_lookup_insert_eq. by eapply lookup_lt_Some.
Qed.

Lemma held_update (w : World) (g : addr) (l l' : list addr) (rs rs' : list SitemapPath) :
  held w g l rs ->
  points_to (heap w) l' rs' ->
  held (mkWorld (<[g := Serializer l']> (heap w)) (files w)) g l' rs'.
Proof.
  intros [Hg Hrs] Hrs'. split; cbn [heap].
  - apply list_lookup_insert_eq. by eapply lookup_lt_Some.
  - eapply Forall2_impl; [exact Hrs'|]. intros a r Ha. cbn beta in *.
    rewrite list_lookup_insert_ne; [done|]. intros <-. congruence.
Qed.

(** X7: the [add] of the serializer appends the references it is given to
    those it holds, in order, without copying the routes and without
    touching any other object; two calls in a row hold what one call with
    both lists holds, and [generate] then renders the routes held before,
    those of the first call and those of the second, in that order. *)
Theorem serializer_add_appends (w : World) (g : addr) (l u1 u2 : list addr)
    (rs0 rs1 rs2 : list SitemapPath) (limit : option Z) :
  held w g l rs0 ->
  points_to (heap w) u1 rs1 ->
  points_to (heap w) u2 rs2 ->
  exists w1 w2 w3,
    SiteMapGenerator.add g u1 w = Some (g, w1) /\
    SiteMapGenerator.add g u2 w1 = Some (g, w2) /\
    SiteMapGenerator.add g (u1 ++ u2) w = Some (g, w2) /\
    held w2 g (l ++ u1 ++ u2) (rs0 ++ rs1 ++ rs2) /\
    (forall b o, b <> g -> heap w !! b = Some o -> heap w2 !! b = Some o) /\
    SiteMapGenerator.generate g limit w2 =
      Some (urlset (selected limit (rs0 ++ rs1 ++ rs2)), w3).
Proof.
  intros H H1 H2. pose proof H as [Hg Hrs0].
  set (w1 := mkWorld (<[g := Serializer (l ++ u1)]> (heap w)) (files w)).
  set (w2 := mkWorld (<[g := Serializer (l ++ u1 ++ u2)]> (heap w)) (files w)).
  assert (Hall : points_to (heap w) (l ++ u1 ++ u2) (rs0 ++ rs1 ++ rs2)).
  { apply Forall2_app; [done|]. by apply Forall2_app. }
  assert (Hh2 : held w2 g (l ++ u1 ++ u2) (rs0 ++ rs1 ++ rs2)).
  { by apply (held_update w g l _ rs0). }
  assert (Hg1 : heap w1 !! g = Some (Serializer (l ++ u1))).
  { apply list_lookup_insert_eq. by eapply lookup_lt_Some. }
  exists w1, w2, (mkWorld (heap w2 ++ map Route (rs0 ++ rs1 ++ rs2)) (files w2)).
  split_and!.
  - by apply generator_add_at.
  - rewrite (generator_add_at g u2 w1 (l ++ u1) Hg1). unfold w1, w2. cbn [heap files].
    by rewrite list_insert_insert_eq, <- app_assoc.
  - by apply generator_add_at.
  - exact Hh2.
  - intros b o Hb Ho. unfold w2. cbn [heap]. by rewrite list_lookup_insert_ne.
  - rewrite <- urlset_fold.
    exact (generator_generate_run g limit w2 _ _ (proj1 Hh2) (proj2 Hh2)).
Qed.

Lemma serializer_add_appends_witness :
  held serializer_world 0%nat [1%nat; 2%nat] [home_route; about_route] /\
  points_to (heap serializer_world) [2%nat] [about_route] /\
  points_to (heap serializer_world) [1%nat; 1%nat] [home_route; home_route] /\
  exists w1 w2 w3,
    SiteMapGenerator.add 0%nat [2%nat] serializer_world = Some (0%nat, w1) /\
    SiteMapGenerator.add 0%nat [1%nat; 1%nat] w1 = Some (0%nat, w2) /\
    SiteMapGenerator.add 0%nat ([2%nat] ++ [1%nat; 1%nat]) serializer_world =
      Some (0%nat, w2) /\
    held w2 0%nat ([1%nat; 2%nat] ++ [2%nat] ++ [1%nat; 1%nat])
      ([home_route; about_route] ++ [about_route] ++ [home_route; home_route]) /\
    (forall b o, b <> 0%nat -> heap serializer_world !! b = Some o ->
                 heap w2 !! b = Some o) /\
    SiteMapGenerator.generate 0%nat None w2 =
      Some (urlset (selected None
              ([home_route; about_route] ++ [about_route] ++ [home_route; home_route])), w3).
Proof.
  assert (H : held serializer_world 0%nat [1%nat; 2%nat] [home_route; about_route]).
  { split; [reflexivity|]. repeat (constructor; [reflexivity|]). constructor. }
  assert (H1 : points_to (heap serializer_world) [2%nat] [about_route]).
  { repeat (constructor; [reflexivity|]). constructor. }
  assert (H2 : points_to (heap serializer_world) [1%nat; 1%nat] [home_route; home_route]).
  { repeat (constructor; [reflexivity|]). constructor. }
  split; [exact H|]. split; [exact H1|]. split; [exact H2|].
  exact (serializer_add_appends serializer_world 0%nat _ _ _ _ _ _ None H H1 H2).
Defined.

(** ** Alternate links in the document *)

(** X12: with locale codes L (not empty, none repeated, none an array
    index or [__proto__]), the block that [generate] emits for an added
    path ends, before [</url>], with one [xhtml:link] line per code of L, in
    the order of L, each with the code as [hreflang] and the base URL, the
    code and the path without its leading slashes as [href]. *)
Theorem added_alternates_rendered (w : World) (this : addr) (s : SitemapFields)
    (rs : list SitemapPath) (arg : PathArg) (r : SitemapPath) :
  holds w this s rs ->
  arg_record w arg = Some r ->
  localeCodes s <> [] ->
  NoDup (localeCodes s) ->
  Forall plain_code (localeCodes s) ->
  exists w1 a r' xml w2,
    Sitemap.add this arg w = Some (tt, w1) /\
    holds w1 this (push s a) (rs ++ [r']) /\
    Sitemap.generate this None w1 = Some (xml, w2) /\
    xml = urlset (rs ++ [r']) /\
    link_lines r' =
      String.concat EmptyString
        (map (alternate_line (baseUrl s) (path r)) (localeCodes s)).
Proof.
  intros H Harg HL Hnd Hplain.
  destruct (add_holds w this s rs arg r H Harg) as (w1 & a & Hadd & Hh & _).
  destruct (generate_holds w1 this None _ _ Hh) as (w2 & Hgen & _).
  exists w1, a, (normalized s r), (urlset (rs ++ [normalized s r])), w2.
  split_and!; try done.
  unfold link_lines. cbn [normalized hreflang].
  destruct (localeCodes s) as [|c L] eqn:E; [done|].
  rewrite <- E in *. rewrite (hreflang_of_entries _ _ _ Hnd Hplain).
  by rewrite map_map.
Qed.

Lemma added_alternates_rendered_witness :
  holds (example_world ["en"; "ar"]) 0%nat (example_fields ["en"; "ar"]) [] /\
  arg_record (example_world ["en"; "ar"]) (Str "/about") = Some (bare "/about") /\
  exists w1 a r' xml w2,
    Sitemap.add 0%nat (Str "/about") (example_world ["en"; "ar"]) = Some (tt, w1) /\
    holds w1 0%nat (push (example_fields ["en"; "ar"]) a) ([] ++ [r']) /\
    Sitemap.generate 0%nat None w1 = Some (xml, w2) /\
    xml = urlset ([] ++ [r']) /\
    link_lines r' =
      String.concat EmptyString
        (map (alternate_line (baseUrl (example_fields ["en"; "ar"])) (path (bare "/about")))
           (localeCodes (example_fields ["en"; "ar"]))).
Proof.
  assert (H : holds (example_world ["en"; "ar"]) 0%nat (example_fields ["en"; "ar"]) []).
  { split; [reflexivity|constructor]. }
  split; [exact H|]. split; [reflexivity|].
  apply (added_alternates_rendered (example_world ["en"; "ar"]) 0%nat
           (example_fields ["en"; "ar"]) [] (Str "/about") (bare "/about") H eq_refl).
  - discriminate.
  - apply (bool_decide_unpack _). vm_compute. exact I.
  - repeat (constructor; [apply plain_code_b_spec; vm_compute; reflexivity|]). constructor.
Defined.

(** ** Blank fields in the document *)

Lemma lines_without_blanks (r : SitemapPath) :
  lastmod_line (without_blanks r) = lastmod_line r /\
  changefreq_line (without_blanks r) = changefreq_line r /\
  priority_line (without_blanks r) = priority_line r /\
  link_lines (without_blanks r) = link_lines r.
Proof.
  unfold without_blanks, lastmod_line, changefreq_line, priority_line, link_lines.
  destruct r as [p lm cf pr hl].
  cbn [path lastModified changeFrequency priority hreflang]. split_and!.
  - destruct lm as [[d|t]|]; [reflexivity| |reflexivity].
    destruct (JS.string_truthy t) eqn:E; [|reflexivity]. by rewrite E.
  - destruct cf as [c|]; [|reflexivity].
    destruct (JS.string_truthy c) eqn:E; [|reflexivity]. by rewrite E.
  - destruct pr as [n|]; [|reflexivity]. cbn [JS.truthy_number].
    destruct (JS.number_truthy n) eqn:E; [|reflexivity]. by rewrite E.
  - destruct hl as [h|]; [|reflexivity].
    destruct (JS.Object_entries h) eqn:E; [reflexivity|]. by rewrite E.
Qed.

Lemma url_block_without_blanks (r : SitemapPath) :
  url_block (without_blanks r) = url_block r.
Proof.
  destruct (lines_without_blanks r) as (E1 & E2 & E3 & E4).
  unfold url_block. by rewrite E1, E2, E3, E4.
Qed.

Lemma selected_map {A B : Type} (f : A -> B) (limit : option Z) (l : list A) :
  selected limit (map f l) = map f (selected limit l).
Proof.
  unfold selected, JS.slice0. destruct limit as [e|]; [|done].
  destruct (SiteMapGenerator.limit_truthy (Some e)); [|done].
  rewrite length_map. symmetry. apply (fmap_take f).
Qed.

(** X13: the serializer renders a blank field like an absent one.  An
    empty [lastModified] or [changeFrequency] string, a falsy priority (0
    included) and an hreflang object without entries leave no line: a
    serializer that holds records with such fields returns, for every
    limit, the text that it returns for the records without them. *)
Theorem blank_fields_not_rendered (w w' : World) (g g' : addr) (urls urls' : list addr)
    (rs : list SitemapPath) (limit : option Z) :
  held w g urls rs ->
  held w' g' urls' (map without_blanks rs) ->
  exists xml w1 w1',
    SiteMapGenerator.generate g limit w = Some (xml, w1) /\
    SiteMapGenerator.generate g' limit w' = Some (xml, w1').
Proof.
  intros [Hg Hrs] [Hg' Hrs'].
  pose proof (generator_generate_run g limit w urls rs Hg Hrs) as E.
  pose proof (generator_generate_run g' limit w' urls' _ Hg' Hrs') as E'.
  rewrite urlset_fold in E, E'.
  eexists _, _, _. split; [exact E|]. rewrite E'. f_equal. f_equal.
  unfold urlset. rewrite selected_map, map_map. f_equal. f_equal. f_equal.
  apply map_ext. intros r. apply url_block_without_blanks.
Qed.

Lemma blank_fields_not_rendered_witness :
  held blank_world 0%nat [1%nat] [blank_record] /\
  held plain_world 0%nat [1%nat] (map without_blanks [blank_record]) /\
  exists xml w1 w1',
    SiteMapGenerator.generate 0%nat None blank_world = Some (xml, w1) /\
    SiteMapGenerator.generate 0%nat None plain_world = Some (xml, w1').
Proof.
  assert (H : held blank_world 0%nat [1%nat] [blank_record]).
  { split; [reflexivity|]. repeat (constructor; [reflexivity|]). constructor. }
  assert (H' : held plain_world 0%nat [1%nat] (map without_blanks [blank_record])).
  { split; [reflexivity|]. repeat (constructor; [reflexivity|]). constructor. }
  split; [exact H|]. split; [exact H'|].
  exact (blank_fields_not_rendered blank_world plain_world 0%nat 0%nat _ _ _ None H H').
Defined.

(** ** Rendering again after an [add] *)

(** X14: nothing is cached between calls.  After a [generate] (with any
    limit) the collection takes further routes, and the next [generate]
    returns the document of the routes held before followed by the new
    one. *)
Theorem generate_then_add (w : World) (this : addr) (s : SitemapFields)
    (rs : list SitemapPath) (limit : option Z) (arg : PathArg) (r : SitemapPath) :
  holds w this s rs ->
  arg_record w arg = Some r ->
  exists xml0 w0 w1 a r' xml w2,
    Sitemap.generate this limit w = Some (xml0, w0) /\
    Sitemap.add this arg w0 = Some (tt, w1) /\
    holds w1 this (push s a) (rs ++ [r']) /\
    Sitemap.generate this None w1 = Some (xml, w2) /\
    xml0 = urlset (selected limit rs) /\
    xml = urlset (rs ++ [r']).
Proof.
  intros H Harg.
  destruct (generate_holds w this limit s rs H) as (w0 & Hgen0 & Hh0 & [ext Hext] & _).
  assert (Harg0 : arg_record w0 arg = Some r).
  { destruct arg as [p|a]; cbn [arg_record] in *; [done|].
    destruct (heap w !! a) as [[r0| |]|] eqn:Ha; try done.
    rewrite Hext. by rewrite (lookup_old _ ext _ _ Ha). }
  destruct (add_holds w0 this s rs arg r Hh0 Harg0) as (w1 & a & Hadd & Hh1 & _).
  destruct (generate_holds w1 this None _ _ Hh1) as (w2 & Hgen & _).
  by eexists _, w0, w1, a, (normalized s r), _, w2.
Qed.

Lemma generate_then_add_witness :
  holds one_route_world 0%nat one_route_fields [home_route] /\
  arg_record one_route_world (Str "/about") = Some (bare "/about") /\
  exists xml0 w0 w1 a r' xml w2,
    Sitemap.generate 0%nat (Some 1) one_route_world = Some (xml0, w0) /\
    Sitemap.add 0%nat (Str "/about") w0 = Some (tt, w1) /\
    holds w1 0%nat (push one_route_fields a) ([home_route] ++ [r']) /\
    Sitemap.generate 0%nat None w1 = Some (xml, w2) /\
    xml0 = urlset (selected (Some 1) [home_route]) /\
    xml = urlset ([home_route] ++ [r']).
Proof.
  assert (H : holds one_route_world 0%nat one_route_fields [home_route]).
  { split; [reflexivity|]. constructor; [reflexivity|constructor]. }
  split; [exact H|]. split; [reflexivity|].
  exact (generate_then_add one_route_world 0%nat _ _ (Some 1) (Str "/about")
           (bare "/about") H eq_refl).
Defined.
